(** * BrainBang to Brainfuck compiler: model and properties

    A shallow embedding of [src/compilers/brainbang_compiler.py]
    (class [BrainBangCompiler]) and the proofs of its specified properties.

    Conventions of the embedding.
    - A Python [str] is the list of its code points ([pystr = list N]);
      [ord] is the identity on a code point.
    - [self.output] is the Python list of appended pieces, joined by
      [''.join] at the end of [compile].
    - [self.loop_stack] is kept with its top at the head of the list:
      [append] is cons, [loop_stack[-1]] is the head, [pop()] is the tail.
      [bottom_to_top] gives the frames in Python's list order.
    - An exception is a value of [error], one constructor per [raise] site;
      a method that can raise returns a [result].
    - The classification of characters at or above U+0080 ([str.isspace],
      [str.isdigit], the digit value read by [int]) belongs to the Python
      runtime and is a parameter, [unicode_tables]; below U+0080 it is
      written out.
    - The runtime is a 64-bit CPython 3.11 or later with its defaults:
      [int] refuses a string of more than 4300 digits, and [s * n] raises
      [OverflowError] when [n] exceeds [sys.maxsize].  Running out of
      memory is not modelled. *)

From Stdlib Require Import Ascii String.
From Stdlib Require Import List NArith ZArith Bool Lia Sorted.
Import ListNotations.
Local Open Scope N_scope.

(* ================================================================== *)
(** ** Python strings *)

(** A character is its code point, a string the list of its characters. *)
Abbreviation char := N (only parsing).
Abbreviation pystr := (list N) (only parsing).

(** A string literal of the source, given by its ASCII text. *)
Fixpoint py (s : string) : pystr :=
  match s with
  | EmptyString => []
  | String a s' => N_of_ascii a :: py s'
  end.

(** The double quote character, U+0022. *)
Definition dquote : pystr := [34].

Fixpoint str_eqb (a b : pystr) : bool :=
  match a, b with
  | [], [] => true
  | x :: a', y :: b' => (x =? y) && str_eqb a' b'
  | _, _ => false
  end.

(** [s.startswith(prefix)] *)
Fixpoint startswith (s prefix : pystr) {struct prefix} : bool :=
  match prefix with
  | [] => true
  | p :: prefix' =>
      match s with
      | c :: s' => (c =? p) && startswith s' prefix'
      | [] => false
      end
  end.

(** [s.endswith(suffix)] *)
Definition endswith (s suffix : pystr) : bool :=
  startswith (rev s) (rev suffix).

(** [not s] *)
Definition is_empty (s : pystr) : bool :=
  match s with [] => true | _ :: _ => false end.

(** [s * n] for a count that fits an index; [str_repeat] below adds the
    error of a count that does not. *)
Definition str_mul (s : pystr) (n : N) : pystr :=
  concat (repeat s (N.to_nat n)).

(** [s.find(sub)], [None] standing for -1; [sub in s] is [find s sub <> None]
    and [s.index(sub)] is the index found. *)
Fixpoint find (s sub : pystr) : option nat :=
  if startswith s sub then Some O
  else match s with
       | [] => None
       | _ :: s' => option_map S (find s' sub)
       end.

(** [s.split('\n')] *)
Fixpoint split_newline (s : pystr) : list pystr :=
  match s with
  | [] => [[]]
  | c :: s' =>
      if c =? 10 then [] :: split_newline s'
      else match split_newline s' with
           | l :: ls => (c :: l) :: ls
           | [] => [[c]]
           end
  end.

Fixpoint dropwhile (p : char -> bool) (s : pystr) : pystr :=
  match s with
  | [] => []
  | c :: s' => if p c then dropwhile p s' else s
  end.

(** [sys.get_int_max_str_digits()], at its default. *)
Definition int_max_str_digits : N := 4300.

(** [sys.maxsize] of a 64-bit build. *)
Definition maxsize : N := 9223372036854775807.

(** The runtime's character tables above ASCII. *)
Record unicode_tables : Type := {
  uni_isspace : char -> bool;      (* whitespace, as [str.strip] sees it *)
  uni_isdigit : char -> bool;      (* a digit, as [str.isdigit] sees it *)
  uni_decimal : char -> option N   (* the value [int] reads, for a decimal digit *)
}.

(** Tables with no whitespace and no digit above ASCII. *)
Definition ascii_only : unicode_tables :=
  {| uni_isspace := fun _ => false;
     uni_isdigit := fun _ => false;
     uni_decimal := fun _ => None |}.

Section Strings.
Variable db : unicode_tables.

Definition char_isspace (c : char) : bool :=
  if c <? 128
  then ((9 <=? c) && (c <=? 13)) || ((28 <=? c) && (c <=? 32))
  else uni_isspace db c.

Definition char_isdigit (c : char) : bool :=
  if c <? 128 then (48 <=? c) && (c <=? 57) else uni_isdigit db c.

Definition char_decimal (c : char) : option N :=
  if c <? 128
  then if (48 <=? c) && (c <=? 57) then Some (c - 48) else None
  else uni_decimal db c.

Definition lstrip (s : pystr) : pystr := dropwhile char_isspace s.
Definition rstrip (s : pystr) : pystr := rev (dropwhile char_isspace (rev s)).

(** [s.strip()] *)
Definition strip (s : pystr) : pystr := rstrip (lstrip s).

(** [s.isdigit()] *)
Definition isdigit (s : pystr) : bool :=
  negb (is_empty s) && forallb char_isdigit s.

Definition int_digits (s : pystr) : option N :=
  fold_left
    (fun acc c =>
       match acc, char_decimal c with
       | Some a, Some d => Some (10 * a + d)
       | _, _ => None
       end)
    s (Some 0).

(** [int(s)] for a string of digits; [None] when it raises [ValueError]
    (the empty string, more digits than [sys.get_int_max_str_digits()],
    leading zeros counted, or a digit that is not a decimal one). *)
Definition int (s : pystr) : option N :=
  if is_empty s then None
  else if int_max_str_digits <? N.of_nat (length s) then None
  else int_digits s.
End Strings.

(* ================================================================== *)
(** ** Exceptions *)

Inductive exn_class : Type := SyntaxError | ValueError | OverflowError.

(** One constructor per [raise] of the source, carrying what its message
    interpolates. *)
Inductive error : Type :=
| LineMustEndWithSemicolon (content : pystr)
    (* SyntaxError(f"Line must end with semicolon: {content}") *)
| UnknownStatement (content : pystr)
    (* SyntaxError(f"Unknown statement: {content}") *)
| ValueTooLarge (num : N)
    (* ValueError(f"Value {num} is too large for a single cell (max 255)") *)
| InvalidValueForEnt (value_str : pystr)
    (* SyntaxError(f"Invalid value for ent: {value_str}") *)
| InvalidShiftOperator (shift_str : pystr)
    (* SyntaxError(f"Invalid shift operator: {shift_str}") *)
| InvalidNumberInShift (shift_str : pystr)
    (* SyntaxError(f"Invalid number in shift operator: {shift_str}") *)
| ShiftsMustBePositive (shift_str : pystr)
    (* SyntaxError(f"Number of shifts must be positive: {shift_str}") *)
| InvalidIncrementAmount (amount_str : pystr)
    (* SyntaxError(f"Invalid increment amount: {amount_str}") *)
| IncrementMustBePositive (amount : N)
    (* SyntaxError(f"Increment amount must be positive: {amount}") *)
| InvalidIncStatement (inc_str : pystr)
    (* SyntaxError(f"Invalid inc statement: {inc_str}") *)
| InvalidDecrementAmount (amount_str : pystr)
    (* SyntaxError(f"Invalid decrement amount: {amount_str}") *)
| DecrementMustBePositive (amount : N)
    (* SyntaxError(f"Decrement amount must be positive: {amount}") *)
| InvalidDecStatement (dec_str : pystr)
    (* SyntaxError(f"Invalid dec statement: {dec_str}") *)
| InvalidLiteralForInt (s : pystr)
    (* ValueError raised by int(s) *)
| RepeatOverflow (n : N)
    (* OverflowError raised by s * n *)
| ErrorOnLine (line_num : N) (e : error)
    (* SyntaxError(f"Error on line {line_num}: {e}") *).

Definition class_of (e : error) : exn_class :=
  match e with
  | ValueTooLarge _ | InvalidLiteralForInt _ => ValueError
  | RepeatOverflow _ => OverflowError
  | _ => SyntaxError
  end.

Inductive result (A : Type) : Type :=
| Ok (a : A)
| Raise (e : error).
Arguments Ok {A} a.
Arguments Raise {A} e.

Definition bind {A B : Type} (r : result A) (k : A -> result B) : result B :=
  match r with
  | Ok a => k a
  | Raise e => Raise e
  end.

Notation "x <- r ;; k" := (bind r (fun x => k))
  (at level 61, r at next level, right associativity).

(** [s * n] for a count that is not known to be small: [OverflowError]
    when [n] does not fit an index, or when the result would be longer
    than an index can say.  ([str_mul] is [s * n] where the count is an
    ordinal or a value checked against 255, as in [_handle_ent].) *)
Definition str_repeat (s : pystr) (n : N) : result pystr :=
  if maxsize <? n then Raise (RepeatOverflow n)
  else if (1 <=? n) && (maxsize / n <? N.of_nat (length s))
       then Raise (RepeatOverflow n)
       else Ok (str_mul s n).

(* ================================================================== *)
(** ** The compiler *)

Record state : Type := mkState {
  output : list pystr;
  current_indent : N;
  loop_stack : list N      (* top of the stack first *)
}.

(** [__init__], and the reset at the start of [compile]. *)
Definition init : state :=
  {| output := []; current_indent := 0; loop_stack := [] |}.

(** [self.output.append(piece)] *)
Definition append (piece : pystr) (st : state) : state :=
  {| output := output st ++ [piece];
     current_indent := current_indent st;
     loop_stack := loop_stack st |}.

(** The frames in the order of the Python list, oldest first. *)
Definition bottom_to_top (stack : list N) : list N := rev stack.

(** The indentation loop of [_preprocess_lines]: a space counts 1, a tab 4. *)
Fixpoint measure_indent (line : pystr) (indent_level : N) : N :=
  match line with
  | c :: rest =>
      if c =? 32 then measure_indent rest (indent_level + 1)
      else if c =? 9 then measure_indent rest (indent_level + 4)
      else indent_level
  | [] => indent_level
  end.

(** [while self.loop_stack and indent_level <= self.loop_stack[-1]] *)
Fixpoint close_loops (indent_level : N) (out : list pystr) (stack : list N)
  : list pystr * list N :=
  match stack with
  | top :: rest =>
      if indent_level <=? top
      then close_loops indent_level (out ++ [py "]"]) rest
      else (out, stack)
  | [] => (out, stack)
  end.

Definition close_ended_loops (indent_level : N) (st : state) : state :=
  let (out, stack) := close_loops indent_level (output st) (loop_stack st) in
  {| output := out; current_indent := current_indent st; loop_stack := stack |}.

(** [while self.loop_stack] at the end of [compile]. *)
Fixpoint flush_loops (out : list pystr) (stack : list N) : list pystr * list N :=
  match stack with
  | _ :: rest => flush_loops (out ++ [py "]"]) rest
  | [] => (out, stack)
  end.

Definition close_remaining_loops (st : state) : state :=
  let (out, stack) := flush_loops (output st) (loop_stack st) in
  {| output := out; current_indent := current_indent st; loop_stack := stack |}.

Definition handle_loop (indent_level : N) (st : state) : state :=
  let st := append (py "[") st in
  {| output := output st;
     current_indent := current_indent st;
     loop_stack := indent_level :: loop_stack st |}.

Definition handle_cellout (st : state) : state := append (py ".") st.

Definition handle_shift (direction : pystr) (st : state) : state :=
  append direction st.

Definition handle_clr (st : state) : state := append (py "[-]") st.

(** The [for i, char in enumerate(string_content)] loop of [_handle_ent]. *)
Fixpoint ent_string (i : nat) (string_content : pystr) (st : state) : state :=
  match string_content with
  | [] => st
  | char :: rest =>
      let st := if Nat.ltb 0 i then append (py ">") st else st in
      let ascii_val := char in
      let st := append (py "[-]") st in
      let st := append (str_mul (py "+") ascii_val) st in
      ent_string (S i) rest st
  end.

(** [if '//' in line: line = line[:line.index('//')]] *)
Definition remove_comment (line : pystr) : pystr :=
  match find line (py "//") with
  | Some i => firstn i line
  | None => line
  end.

Section Compiler.
Variable db : unicode_tables.

(** The body of the loop of [_preprocess_lines]: [Ok None] is [continue],
    [Ok (Some p)] is [processed.append(p)]. *)
Definition preprocess_line (line : pystr) : result (option (N * pystr)) :=
  let line := remove_comment line in
  if is_empty (strip db line) then Ok None
  else
    let indent_level := measure_indent line 0 in
    let content := strip db line in
    if negb (is_empty content)
       && negb (endswith content (py ":"))
       && negb (endswith content (py ";"))
    then Raise (LineMustEndWithSemicolon content)
    else Ok (Some (indent_level, content)).

Fixpoint preprocess_from (lines : list pystr) (processed : list (N * pystr))
  : result (list (N * pystr)) :=
  match lines with
  | [] => Ok processed
  | line :: rest =>
      r <- preprocess_line line ;;
      match r with
      | None => preprocess_from rest processed
      | Some p => preprocess_from rest (processed ++ [p])
      end
  end.

Definition preprocess_lines (lines : list pystr) : result (list (N * pystr)) :=
  preprocess_from lines [].

Definition handle_ent (value_str : pystr) (st : state) : result state :=
  let value_str := strip db value_str in
  if str_eqb value_str (py "input") then
    Ok (append (py ",") (append (py "[-]") st))
  else if startswith value_str (py "'") && endswith value_str (py "'")
          && Nat.eqb (length value_str) 3 then
    let char := nth 1 value_str 0 in
    let ascii_val := char in
    Ok (append (str_mul (py "+") ascii_val) (append (py "[-]") st))
  else if startswith value_str dquote && endswith value_str dquote then
    let string_content := removelast (skipn 1 value_str) in
    Ok (ent_string 0 string_content st)
  else if isdigit db value_str then
    match int db value_str with
    | None => Raise (InvalidLiteralForInt value_str)
    | Some num =>
        if 255 <? num then Raise (ValueTooLarge num)
        else Ok (append (str_mul (py "+") num) (append (py "[-]") st))
    end
  else Raise (InvalidValueForEnt value_str).

Definition handle_multi_shift (shift_str : pystr) (st : state) : result state :=
  dn <- (if startswith shift_str (py "<<") then Ok (py "<", skipn 2 shift_str)
         else if startswith shift_str (py ">>") then Ok (py ">", skipn 2 shift_str)
         else Raise (InvalidShiftOperator shift_str)) ;;
  let (direction, num_str) := dn : pystr * pystr in
  if negb (isdigit db num_str) then Raise (InvalidNumberInShift shift_str)
  else
    match int db num_str with
    | None => Raise (InvalidLiteralForInt num_str)
    | Some num_shifts =>
        if num_shifts <=? 0 then Raise (ShiftsMustBePositive shift_str)
        else piece <- str_repeat direction num_shifts ;; Ok (append piece st)
    end.

Definition handle_inc (inc_str : pystr) (st : state) : result state :=
  if str_eqb (strip db inc_str) (py "inc") then Ok (append (py "+") st)
  else if startswith inc_str (py "inc ") then
    let amount_str := strip db (skipn 4 inc_str) in
    if negb (isdigit db amount_str) then Raise (InvalidIncrementAmount amount_str)
    else
      match int db amount_str with
      | None => Raise (InvalidLiteralForInt amount_str)
      | Some amount =>
          if amount <=? 0 then Raise (IncrementMustBePositive amount)
          else piece <- str_repeat (py "+") amount ;; Ok (append piece st)
      end
  else Raise (InvalidIncStatement inc_str).

Definition handle_dec (dec_str : pystr) (st : state) : result state :=
  if str_eqb (strip db dec_str) (py "dec") then Ok (append (py "-") st)
  else if startswith dec_str (py "dec ") then
    let amount_str := strip db (skipn 4 dec_str) in
    if negb (isdigit db amount_str) then Raise (InvalidDecrementAmount amount_str)
    else
      match int db amount_str with
      | None => Raise (InvalidLiteralForInt amount_str)
      | Some amount =>
          if amount <=? 0 then Raise (DecrementMustBePositive amount)
          else piece <- str_repeat (py "-") amount ;; Ok (append piece st)
      end
  else Raise (InvalidDecStatement dec_str).

(** The statement dispatch of [_process_line], on the content without its
    trailing semicolon. *)
Definition dispatch (indent_level : N) (content : pystr) (st : state)
  : result state :=
  if startswith content (py "loop:") then Ok (handle_loop indent_level st)
  else if startswith content (py "ent ") then handle_ent (skipn 4 content) st
  else if str_eqb content (py "cellout") then Ok (handle_cellout st)
  else if str_eqb content (py "<") || str_eqb content (py ">") then
    Ok (handle_shift content st)
  else if startswith content (py "<<") || startswith content (py ">>") then
    handle_multi_shift content st
  else if startswith content (py "inc") then handle_inc content st
  else if startswith content (py "dec") then handle_dec content st
  else if str_eqb content (py "clr") then Ok (handle_clr st)
  else Raise (UnknownStatement content).

Definition process_line (indent_level : N) (content : pystr) (st : state)
  : result state :=
  if is_empty content then Ok st
  else
    let st := close_ended_loops indent_level st in
    let content :=
      if endswith content (py ";") then removelast content else content in
    dispatch indent_level content st.

(** The loop of [compile] over [enumerate(processed_lines, 1)]. *)
Fixpoint process_lines (line_num : N) (processed_lines : list (N * pystr))
    (st : state) : result state :=
  match processed_lines with
  | [] => Ok st
  | (indent_level, content) :: rest =>
      match process_line indent_level content st with
      | Raise e => Raise (ErrorOnLine line_num e)
      | Ok st' => process_lines (line_num + 1) rest st'
      end
  end.

Definition compile (source_code : pystr) : result pystr :=
  let st := init in
  let lines := split_newline source_code in
  processed_lines <- preprocess_lines lines ;;
  st <- process_lines 1 processed_lines st ;;
  let st := close_remaining_loops st in
  Ok (concat (output st)).
End Compiler.

(* ================================================================== *)
(** ** The output file of [main] *)

(** [s.replace(old, new)] for a non-empty [old]: the occurrences of [old]
    are replaced from left to right, without overlap.  [skip] counts the
    characters of a replaced occurrence still to be passed over. *)
Fixpoint replace_from (skip : nat) (s old new : pystr) : pystr :=
  match s with
  | [] => []
  | c :: s' =>
      match skip with
      | S k => replace_from k s' old new
      | O =>
          if startswith s old
          then new ++ replace_from (length old - 1) s' old new
          else c :: replace_from O s' old new
      end
  end.

Definition replace (s old new : pystr) : pystr := replace_from O s old new.

(** The name [main] opens for writing:
    [output_file = source_file.replace('.bb', '.bf')], and
    [output_file += '.bf'] when that changed nothing. *)
Definition output_file_name (source_file : pystr) : pystr :=
  let output_file := replace source_file (py ".bb") (py ".bf") in
  if str_eqb output_file source_file then output_file ++ py ".bf"
  else output_file.

(* ================================================================== *)
(** ** What the properties speak of *)

(** The eight primitive tokens. *)
Definition primitive (c : char) : Prop := In c (py "><+-[].,").

(** +1 for a loop-open, -1 for a loop-close, 0 for any other token. *)
Definition weight (c : char) : Z :=
  if c =? 91 then 1%Z else if c =? 93 then (-1)%Z else 0%Z.

Definition prefix_sum (s : pystr) : Z :=
  fold_right (fun c acc => (weight c + acc)%Z) 0%Z s.

Definition never_negative (s : pystr) : Prop :=
  forall k : nat, (0 <= prefix_sum (firstn k s))%Z.

(** The prefix-sum walk never goes negative and ends at 0. *)
Definition well_nested (s : pystr) : Prop :=
  never_negative s /\ prefix_sum s = 0%Z.

(** The value of a string of ASCII decimal digits. *)
Definition ascii_digit (c : char) : Prop := 48 <= c <= 57.

Definition decimal_value (ds : pystr) : N :=
  fold_left (fun acc c => 10 * acc + (c - 48)) ds 0.

(** The tokens a string literal stands for: for each character in order, a
    forward shift before every character but the first, the clear idiom,
    and as many increments as the character's ordinal. *)
Fixpoint string_tokens (first : bool) (cs : pystr) : pystr :=
  match cs with
  | [] => []
  | c :: cs' =>
      (if first then [] else py ">") ++ py "[-]" ++ repeat 43 (N.to_nat c)
        ++ string_tokens false cs'
  end.

(** A piece that may be appended at any depth: primitive tokens only, and
    bracket-balanced on its own. *)
Definition piece_ok (p : pystr) : Prop :=
  Forall primitive p /\ well_nested p.

(** [extends st st']: [st'] has the loop stack of [st] and its output with
    further well-formed pieces appended. *)
Definition extends (st st' : state) : Prop :=
  loop_stack st' = loop_stack st /\
  exists ps, output st' = output st ++ ps /\ Forall piece_ok ps.

(** The tokens emitted so far are primitive, never close more loops than
    were opened, and leave open as many loops as the stack has frames. *)
Definition output_inv (st : state) : Prop :=
  let s := concat (output st) in
  Forall primitive s /\ never_negative s /\
  prefix_sum s = Z.of_nat (length (loop_stack st)).

(** The stack as stored, top first: every frame is deeper than those
    under it. *)
Definition descending (stack : list N) : Prop :=
  StronglySorted (fun upper lower => lower < upper) stack.

(** [rebase p ci st]: the state [st] with the pieces [p] emitted before
    its own, and [ci] for its unused indent field. *)
Definition rebase (p : list pystr) (ci : N) (st : state) : state :=
  {| output := p ++ output st; current_indent := ci; loop_stack := loop_stack st |}.

Definition lift (p : list pystr) (ci : N) (r : result state) : result state :=
  match r with
  | Ok st => Ok (rebase p ci st)
  | Raise e => Raise e
  end.

(** [under base st]: the state [st] with the frames [base] open beneath
    its own. *)
Definition under (base : list N) (st : state) : state :=
  {| output := output st; current_indent := current_indent st;
     loop_stack := loop_stack st ++ base |}.

Definition lift_under (base : list N) (r : result state) : result state :=
  match r with
  | Ok st => Ok (under base st)
  | Raise e => Raise e
  end.

(** The error [e] is not the one of the last branch of
    [_handle_multi_shift], alone or wrapped with a line number. *)
Definition not_invalid_shift_operator (e : error) : Prop :=
  match e with
  | InvalidShiftOperator _ => False
  | ErrorOnLine _ (InvalidShiftOperator _) => False
  | _ => True
  end.

(** Leading whitespace made of spaces and tabs only. *)
Definition space_or_tab (c : char) : Prop := c = 32 \/ c = 9.

Definition indent_width (w : pystr) : N :=
  fold_right (fun c acc => (if c =? 9 then 4 else 1) + acc) 0 w.

(* ================================================================== *)
(** ** Running the compiler *)

Example nested_loops_and_comment :
  compile ascii_only
    (py "loop:" ++ [10] ++ py "  inc 3;" ++ [10] ++ py "  loop:" ++ [10]
       ++ py "    >>2; // twice" ++ [10] ++ py "  ent 'A';")
  = Ok (py "[+++[>>][-]" ++ repeat 43 65 ++ py "]").
Proof. reflexivity. Qed.

Example sibling_loops :
  compile ascii_only
    (py "loop:" ++ [10] ++ [9] ++ py "dec;" ++ [10] ++ py "loop:" ++ [10]
       ++ py "    cellout;" ++ [10] ++ py "clr;")
  = Ok (py "[-][.][-]").
Proof. reflexivity. Qed.

Example unknown_statement :
  compile ascii_only (py "inc;" ++ [10] ++ py "halt;")
  = Raise (ErrorOnLine 2 (UnknownStatement (py "halt"))).
Proof. reflexivity. Qed.

(* ================================================================== *)
(** ** Lemmas on strings *)

Lemma str_eqb_eq (a b : pystr) : str_eqb a b = true <-> a = b.
Proof.
  revert b; induction a as [|x a IH]; intros [|y b]; simpl;
    try (split; [discriminate | congruence]); try tauto.
  rewrite andb_true_iff, N.eqb_eq, IH. split.
  - intros [-> ->]; reflexivity.
  - intros E; injection E; auto.
Qed.

Lemma endswith_last (s : pystr) (c : char) : endswith (s ++ [c]) [c] = true.
Proof.
  unfold endswith. rewrite rev_app_distr. simpl. rewrite N.eqb_refl. reflexivity.
Qed.

Lemma dropwhile_head (p : char -> bool) (s : pystr) (c : char) (r : pystr) :
  dropwhile p s = c :: r -> p c = false.
Proof.
  induction s as [|x s IH]; simpl; [discriminate|].
  destruct (p x) eqn:E; [exact IH|].
  intros H; injection H as -> _; exact E.
Qed.

Lemma str_mul_char (c : char) (n : N) : str_mul [c] n = repeat c (N.to_nat n).
Proof.
  unfold str_mul. induction (N.to_nat n) as [|k IH]; simpl; [|rewrite IH]; reflexivity.
Qed.


Lemma str_repeat_ok (s : pystr) (n : N) (p : pystr) :
  str_repeat s n = Ok p -> p = str_mul s n.
Proof.
  unfold str_repeat. destruct (maxsize <? n); [discriminate|].
  destruct (_ && _); [discriminate|]. intros H; injection H as <-. reflexivity.
Qed.

Section StringFacts.
Variable db : unicode_tables.

Lemma rstrip_last (s : pystr) (c : char) :
  char_isspace db c = false -> rstrip db (s ++ [c]) = s ++ [c].
Proof.
  intros H. unfold rstrip. rewrite rev_app_distr. simpl. rewrite H.
  simpl. rewrite rev_involutive. reflexivity.
Qed.

Lemma lstrip_first (s : pystr) (c : char) :
  char_isspace db c = false -> lstrip db (c :: s) = c :: s.
Proof. intros H. unfold lstrip. simpl. rewrite H. reflexivity. Qed.


Lemma ascii_digit_not_space (c : char) :
  ascii_digit c -> char_isspace db c = false.
Proof.
  unfold ascii_digit, char_isspace. intros [H1 H2].
  replace (c <? 128) with true by (symmetry; apply N.ltb_lt; lia).
  replace (c <=? 13) with false by (symmetry; apply N.leb_gt; lia).
  replace (28 <=? c) with true by (symmetry; apply N.leb_le; lia).
  replace (c <=? 32) with false by (symmetry; apply N.leb_gt; lia).
  rewrite andb_false_r. reflexivity.
Qed.

Lemma ascii_digit_isdigit (c : char) :
  ascii_digit c -> char_isdigit db c = true /\ char_decimal db c = Some (c - 48).
Proof.
  unfold ascii_digit, char_isdigit, char_decimal. intros [H1 H2].
  replace (c <? 128) with true by (symmetry; apply N.ltb_lt; lia).
  replace (48 <=? c) with true by (symmetry; apply N.leb_le; lia).
  replace (c <=? 57) with true by (symmetry; apply N.leb_le; lia).
  split; reflexivity.
Qed.

Lemma strip_ascii_digits (ds : pystr) :
  Forall ascii_digit ds -> strip db ds = ds.
Proof.
  intros H. destruct ds as [|d ds]; [reflexivity|].
  unfold strip. rewrite lstrip_first
    by (apply ascii_digit_not_space; inversion H; assumption).
  destruct (exists_last (l := d :: ds)) as (s' & x & E); [discriminate|].
  rewrite E in *. apply rstrip_last, ascii_digit_not_space.
  apply Forall_app in H. destruct H as [_ H]. inversion H; assumption.
Qed.

Lemma isdigit_ascii_digits (ds : pystr) :
  ds <> [] -> Forall ascii_digit ds -> isdigit db ds = true.
Proof.
  intros Hne H. unfold isdigit. destruct ds as [|d ds]; [congruence|].
  simpl negb. rewrite andb_true_l. apply forallb_forall. intros x Hx.
  rewrite Forall_forall in H. apply ascii_digit_isdigit; auto.
Qed.

Lemma int_digits_ascii (ds : pystr) (acc : N) :
  Forall ascii_digit ds ->
  fold_left
    (fun a c =>
       match a, char_decimal db c with
       | Some a, Some d => Some (10 * a + d)
       | _, _ => None
       end) ds (Some acc)
  = Some (fold_left (fun a c => 10 * a + (c - 48)) ds acc).
Proof.
  revert acc; induction ds as [|d ds IH]; intros acc H; simpl; [reflexivity|].
  inversion H as [|? ? Hd Hds]; subst.
  destruct (ascii_digit_isdigit d Hd) as [_ ->]. apply IH; assumption.
Qed.

Lemma int_ascii_digits (ds : pystr) :
  ds <> [] -> Forall ascii_digit ds ->
  N.of_nat (length ds) <= int_max_str_digits ->
  int db ds = Some (decimal_value ds).
Proof.
  intros Hne H Hlen. unfold int, int_digits, decimal_value.
  destruct ds as [|d ds]; [congruence|]. simpl is_empty. cbv iota.
  replace (int_max_str_digits <? N.of_nat (length (d :: ds))) with false
    by (symmetry; apply N.ltb_ge; exact Hlen).
  apply int_digits_ascii; assumption.
Qed.

Lemma int_too_long (s : pystr) :
  int_max_str_digits < N.of_nat (length s) -> int db s = None.
Proof.
  intros Hlen. unfold int. destruct (is_empty s); [reflexivity|].
  replace (int_max_str_digits <? N.of_nat (length s)) with true
    by (symmetry; apply N.ltb_lt; exact Hlen).
  reflexivity.
Qed.

End StringFacts.

(* ================================================================== *)
(** ** Lemmas on the emitted tokens *)

Lemma prefix_sum_app (s t : pystr) :
  prefix_sum (s ++ t) = (prefix_sum s + prefix_sum t)%Z.
Proof. induction s as [|c s IH]; simpl; [|rewrite IH]; lia. Qed.

Lemma never_negative_app (s t : pystr) :
  never_negative s -> (forall k, 0 <= prefix_sum s + prefix_sum (firstn k t))%Z ->
  never_negative (s ++ t).
Proof.
  intros Hs Ht k. rewrite firstn_app, prefix_sum_app.
  destruct (Nat.le_gt_cases (length s) k) as [L|L].
  - rewrite firstn_all2 by exact L. apply Ht.
  - replace (k - length s)%nat with O by lia. simpl. specialize (Hs k). lia.
Qed.

Ltac prim := unfold primitive; simpl; tauto.

Ltac neutral_tokens :=
  repeat (apply Forall_cons; [split; [prim | reflexivity]|]); apply Forall_nil.

Lemma piece_ok_nil : piece_ok [].
Proof.
  split; [constructor|]. split; [|reflexivity].
  intros k. rewrite firstn_nil. simpl. lia.
Qed.

Lemma piece_ok_app (p q : pystr) : piece_ok p -> piece_ok q -> piece_ok (p ++ q).
Proof.
  intros (Fp & Np & Sp) (Fq & Nq & Sq). split; [apply Forall_app; auto|]. split.
  - apply never_negative_app; [exact Np|]. intros k. rewrite Sp. apply Nq.
  - rewrite prefix_sum_app. lia.
Qed.

Lemma piece_ok_concat (ps : list pystr) : Forall piece_ok ps -> piece_ok (concat ps).
Proof.
  induction 1; simpl; [apply piece_ok_nil | apply piece_ok_app; assumption].
Qed.

Lemma piece_ok_neutral (p : pystr) :
  Forall (fun c => primitive c /\ weight c = 0%Z) p -> piece_ok p.
Proof.
  induction 1 as [|c p [Hc Hw] _ IH].
  - apply piece_ok_nil.
  - change (c :: p) with ([c] ++ p). apply piece_ok_app; [|exact IH].
    split; [constructor; [exact Hc | constructor]|]. split.
    + intros [|k]; simpl; [lia|]. rewrite firstn_nil. simpl. lia.
    + simpl. lia.
Qed.

Lemma piece_ok_mul (c : char) (n : N) :
  primitive c -> weight c = 0%Z -> piece_ok (str_mul [c] n).
Proof.
  intros Hc Hw. rewrite str_mul_char. apply piece_ok_neutral.
  induction (N.to_nat n); simpl; constructor; auto.
Qed.

Lemma piece_ok_clear : piece_ok (py "[-]").
Proof.
  split; [|split].
  - repeat (apply Forall_cons; [prim|]); apply Forall_nil.
  - intros [|[|[|[|k]]]]; vm_compute; discriminate.
  - reflexivity.
Qed.

Lemma extends_refl (st : state) : extends st st.
Proof. split; [reflexivity|]. exists []. rewrite app_nil_r. auto. Qed.

Lemma extends_trans (a b c : state) : extends a b -> extends b c -> extends a c.
Proof.
  intros (S1 & p1 & O1 & F1) (S2 & p2 & O2 & F2). split; [congruence|].
  exists (p1 ++ p2). rewrite O2, O1, app_assoc. split; [reflexivity|].
  apply Forall_app; auto.
Qed.

Lemma extends_append (p : pystr) (st : state) : piece_ok p -> extends st (append p st).
Proof. intros H. split; [reflexivity|]. exists [p]. simpl. auto. Qed.

Lemma extends_append2 (p : pystr) (a b : state) :
  piece_ok p -> extends a b -> extends a (append p b).
Proof. intros H E. eapply extends_trans; [exact E | apply extends_append, H]. Qed.

Lemma repeat_append_extends (c : char) (n : N) (st st' : state) :
  primitive c -> weight c = 0%Z ->
  (piece <- str_repeat [c] n ;; Ok (append piece st)) = Ok st' ->
  extends st st'.
Proof.
  intros Hc Hw. destruct (str_repeat [c] n) as [p|e] eqn:E; cbn [bind];
    [|discriminate].
  apply str_repeat_ok in E. subst p. intros H; injection H as <-.
  apply extends_append, piece_ok_mul; assumption.
Qed.

Lemma ent_string_extends (cs : pystr) : forall i st, extends st (ent_string i cs st).
Proof.
  induction cs as [|c cs IH]; intros i st; simpl; [apply extends_refl|].
  eapply extends_trans; [|apply IH].
  apply extends_append2; [apply piece_ok_mul; [prim | reflexivity]|].
  apply extends_append2; [apply piece_ok_clear|].
  destruct (Nat.ltb 0 i); [|apply extends_refl].
  apply extends_append, piece_ok_neutral. neutral_tokens.
Qed.

Section Emission.
Variable db : unicode_tables.

Lemma handle_ent_extends (v : pystr) (st st' : state) :
  handle_ent db v st = Ok st' -> extends st st'.
Proof.
  unfold handle_ent.
  repeat match goal with
         | |- context [if ?b then _ else _] => destruct b
         | |- context [match ?o with Some _ => _ | None => _ end] => destruct o
         end; intros H; inversion H; subst; clear H.
  - apply extends_append2; [|apply extends_append, piece_ok_clear].
    apply piece_ok_neutral. neutral_tokens.
  - apply extends_append2; [|apply extends_append, piece_ok_clear].
    apply piece_ok_mul; [prim | reflexivity].
  - apply ent_string_extends.
  - apply extends_append2; [|apply extends_append, piece_ok_clear].
    apply piece_ok_mul; [prim | reflexivity].
Qed.

Lemma handle_multi_shift_extends (s : pystr) (st st' : state) :
  handle_multi_shift db s st = Ok st' -> extends st st'.
Proof.
  unfold handle_multi_shift.
  destruct (startswith s (py "<<")); [|destruct (startswith s (py ">>"))]; simpl;
    try discriminate;
    repeat match goal with
           | |- context [if ?b then _ else _] => destruct b
           | |- context [match ?o with Some _ => _ | None => _ end] => destruct o
           end; try discriminate; intros H;
    apply repeat_append_extends in H; solve [exact H | prim | reflexivity].
Qed.

Lemma handle_inc_extends (s : pystr) (st st' : state) :
  handle_inc db s st = Ok st' -> extends st st'.
Proof.
  unfold handle_inc.
  repeat match goal with
         | |- context [if ?b then _ else _] => destruct b
         | |- context [match ?o with Some _ => _ | None => _ end] => destruct o
         end; try discriminate; intros H.
  - injection H as <-. apply extends_append, piece_ok_neutral. neutral_tokens.
  - apply repeat_append_extends in H; solve [exact H | prim | reflexivity].
Qed.

Lemma handle_dec_extends (s : pystr) (st st' : state) :
  handle_dec db s st = Ok st' -> extends st st'.
Proof.
  unfold handle_dec.
  repeat match goal with
         | |- context [if ?b then _ else _] => destruct b
         | |- context [match ?o with Some _ => _ | None => _ end] => destruct o
         end; try discriminate; intros H.
  - injection H as <-. apply extends_append, piece_ok_neutral. neutral_tokens.
  - apply repeat_append_extends in H; solve [exact H | prim | reflexivity].
Qed.

(** Every statement but [loop:] leaves the loop stack alone and appends
    well-formed pieces; [loop:] is the only one to be handled apart. *)
Lemma dispatch_extends (indent : N) (content : pystr) (st st' : state) :
  dispatch db indent content st = Ok st' ->
  st' = handle_loop indent st \/ extends st st'.
Proof.
  unfold dispatch.
  destruct (startswith content (py "loop:")).
  { intros H; inversion H. left; reflexivity. }
  destruct (startswith content (py "ent ")).
  { intros H; right; eapply handle_ent_extends; exact H. }
  destruct (str_eqb content (py "cellout")).
  { intros H; inversion H. right. apply extends_append, piece_ok_neutral.
    neutral_tokens. }
  destruct (str_eqb content (py "<") || str_eqb content (py ">")) eqn:E.
  { intros H; inversion H. right. apply extends_append, piece_ok_neutral.
    apply orb_true_iff in E. destruct E as [E|E]; apply str_eqb_eq in E; subst;
      neutral_tokens. }
  destruct (startswith content (py "<<") || startswith content (py ">>")).
  { intros H; right; eapply handle_multi_shift_extends; exact H. }
  destruct (startswith content (py "inc")).
  { intros H; right; eapply handle_inc_extends; exact H. }
  destruct (startswith content (py "dec")).
  { intros H; right; eapply handle_dec_extends; exact H. }
  destruct (str_eqb content (py "clr")); [|discriminate].
  intros H; inversion H. right. apply extends_append, piece_ok_clear.
Qed.
End Emission.

(* ================================================================== *)
(** ** The invariant of the output and the loop stack *)

Lemma output_inv_init : output_inv init.
Proof.
  split; [constructor|]. split; [|reflexivity].
  intros k. simpl. rewrite firstn_nil. simpl. lia.
Qed.

Lemma output_inv_extends (st st' : state) :
  output_inv st -> extends st st' -> output_inv st'.
Proof.
  unfold output_inv. intros (F & Nn & Sd) (Hs & ps & Ho & Hp).
  rewrite Ho, Hs, concat_app. apply piece_ok_concat in Hp.
  destruct Hp as (Fp & Np & Sp). split; [apply Forall_app; auto|]. split.
  - apply never_negative_app; [exact Nn|]. intros k. specialize (Np k). lia.
  - rewrite prefix_sum_app. lia.
Qed.

(** Appending one loop-close to tokens that leave [d + 1] loops open. *)
Lemma output_close (out : list pystr) (d : Z) :
  (0 <= d)%Z ->
  Forall primitive (concat out) /\ never_negative (concat out) /\
    prefix_sum (concat out) = (d + 1)%Z ->
  Forall primitive (concat (out ++ [py "]"])) /\
    never_negative (concat (out ++ [py "]"])) /\
    prefix_sum (concat (out ++ [py "]"])) = d.
Proof.
  intros Hd (F & Nn & Sd). rewrite concat_app. simpl.
  split; [apply Forall_app; split; [exact F | constructor; [prim | constructor]]|].
  split.
  - apply never_negative_app; [exact Nn|]. rewrite Sd.
    intros [|[|k]]; cbn; lia.
  - rewrite prefix_sum_app, Sd. cbn. lia.
Qed.

(** Appending one loop-open. *)
Lemma output_open (out : list pystr) (d : Z) :
  (0 <= d)%Z ->
  Forall primitive (concat out) /\ never_negative (concat out) /\
    prefix_sum (concat out) = d ->
  Forall primitive (concat (out ++ [py "["])) /\
    never_negative (concat (out ++ [py "["])) /\
    prefix_sum (concat (out ++ [py "["])) = (d + 1)%Z.
Proof.
  intros Hd (F & Nn & Sd). rewrite concat_app. simpl.
  split; [apply Forall_app; split; [exact F | constructor; [prim | constructor]]|].
  split.
  - apply never_negative_app; [exact Nn|]. rewrite Sd.
    intros [|[|k]]; cbn; lia.
  - rewrite prefix_sum_app, Sd. cbn. lia.
Qed.

Lemma close_loops_inv (indent : N) (stack : list N) :
  forall out out' stack',
    close_loops indent out stack = (out', stack') ->
    Forall primitive (concat out) /\ never_negative (concat out) /\
      prefix_sum (concat out) = Z.of_nat (length stack) ->
    Forall primitive (concat out') /\ never_negative (concat out') /\
      prefix_sum (concat out') = Z.of_nat (length stack').
Proof.
  induction stack as [|top rest IH]; simpl; intros out out' stack' H I.
  - inversion H; subst. exact I.
  - destruct (indent <=? top).
    + eapply IH; [exact H|]. apply output_close; [lia|].
      replace (Z.of_nat (length rest) + 1)%Z with (Z.of_nat (S (length rest))) by lia.
      exact I.
    + inversion H; subst. exact I.
Qed.

Lemma close_ended_loops_inv (indent : N) (st : state) :
  output_inv st -> output_inv (close_ended_loops indent st).
Proof.
  unfold output_inv, close_ended_loops. intros I.
  destruct (close_loops indent (output st) (loop_stack st)) as [out' stack'] eqn:E.
  simpl. eapply close_loops_inv; eauto.
Qed.

Lemma handle_loop_inv (indent : N) (st : state) :
  output_inv st -> output_inv (handle_loop indent st).
Proof.
  unfold output_inv, handle_loop, append. cbn [output loop_stack length]. intros I.
  replace (Z.of_nat (S (length (loop_stack st))))
    with (Z.of_nat (length (loop_stack st)) + 1)%Z by lia.
  apply output_open; [lia | exact I].
Qed.

Lemma flush_loops_spec (stack : list N) :
  forall out, flush_loops out stack = (out ++ repeat (py "]") (length stack), []).
Proof.
  induction stack as [|top rest IH]; intros out; simpl.
  - rewrite app_nil_r. reflexivity.
  - rewrite IH, <- app_assoc. reflexivity.
Qed.

Lemma flush_loops_inv (stack : list N) :
  forall out out' stack',
    flush_loops out stack = (out', stack') ->
    Forall primitive (concat out) /\ never_negative (concat out) /\
      prefix_sum (concat out) = Z.of_nat (length stack) ->
    Forall primitive (concat out') /\ well_nested (concat out').
Proof.
  induction stack as [|top rest IH]; simpl; intros out out' stack' H I.
  - inversion H; subst. destruct I as (F & Nn & S0). repeat split; assumption.
  - eapply IH; [exact H|]. apply output_close; [lia|].
    replace (Z.of_nat (length rest) + 1)%Z with (Z.of_nat (S (length rest))) by lia.
    exact I.
Qed.

Lemma prefix_sum_count (s : pystr) :
  prefix_sum s
  = (Z.of_nat (count_occ N.eq_dec s 91%N)
     - Z.of_nat (count_occ N.eq_dec s 93%N))%Z.
Proof.
  induction s as [|c s IH]; [reflexivity|].
  cbn [prefix_sum fold_right]. fold (prefix_sum s). rewrite IH. unfold weight.
  destruct (N.eq_dec c 91) as [->|N1].
  { rewrite count_occ_cons_eq, count_occ_cons_neq by (reflexivity || discriminate).
    change (91 =? 91) with true. cbv iota.
    generalize (count_occ N.eq_dec s 91%N), (count_occ N.eq_dec s 93%N).
    clear IH. intros a b. lia. }
  destruct (N.eq_dec c 93) as [->|N2].
  { rewrite count_occ_cons_neq, count_occ_cons_eq by (reflexivity || discriminate).
    change (93 =? 91) with false. change (93 =? 93) with true. cbv iota.
    generalize (count_occ N.eq_dec s 91%N), (count_occ N.eq_dec s 93%N).
    clear IH. intros a b. lia. }
  rewrite !count_occ_cons_neq by congruence.
  apply N.eqb_neq in N1, N2. rewrite N1, N2.
  generalize (count_occ N.eq_dec s 91%N), (count_occ N.eq_dec s 93%N).
  clear IH. intros a b. lia.
Qed.

Section Invariant.
Variable db : unicode_tables.

Lemma process_line_inv (indent : N) (content : pystr) (st st' : state) :
  process_line db indent content st = Ok st' ->
  output_inv st -> output_inv st'.
Proof.
  unfold process_line. destruct (is_empty content).
  { intros H; inversion H; subst; auto. }
  intros H I. apply (close_ended_loops_inv indent) in I.
  apply dispatch_extends in H. destruct H as [->|H].
  - apply handle_loop_inv, I.
  - eapply output_inv_extends; eauto.
Qed.

Lemma process_lines_inv (lines : list (N * pystr)) :
  forall line_num st st',
    process_lines db line_num lines st = Ok st' ->
    output_inv st -> output_inv st'.
Proof.
  induction lines as [|[indent content] rest IH]; simpl; intros n st st' H I.
  - inversion H; subst; exact I.
  - destruct (process_line db indent content st) as [st1|e] eqn:E; [|discriminate].
    eapply IH; [exact H|]. eapply process_line_inv; eauto.
Qed.

(** The output of a successful compilation, in terms of the state the
    last line leaves. *)
Lemma compile_ok (src out : pystr) :
  compile db src = Ok out ->
  exists lines st,
    preprocess_lines db (split_newline src) = Ok lines /\
    process_lines db 1 lines init = Ok st /\
    out = concat (output (close_remaining_loops st)).
Proof.
  unfold compile.
  destruct (preprocess_lines db (split_newline src)) as [lines|e]; simpl;
    [|discriminate].
  destruct (process_lines db 1 lines init) as [st|e] eqn:E; simpl; [|discriminate].
  intros H; inversion H. exists lines, st. auto.
Qed.

Lemma compile_output_inv (src out : pystr) :
  compile db src = Ok out -> Forall primitive out /\ well_nested out.
Proof.
  intros H. apply compile_ok in H. destruct H as (lines & st & _ & Hp & ->).
  apply process_lines_inv in Hp; [|apply output_inv_init].
  unfold close_remaining_loops.
  destruct (flush_loops (output st) (loop_stack st)) as [out' stack'] eqn:E.
  simpl. eapply flush_loops_inv; eauto.
Qed.
End Invariant.

(* ================================================================== *)
(** ** The order of the loop stack *)

Lemma strongly_sorted_snoc (R : N -> N -> Prop) (l : list N) (a : N) :
  StronglySorted R l -> Forall (fun x => R x a) l -> StronglySorted R (l ++ [a]).
Proof.
  induction 1 as [|x l Hl IH Hx]; intros Ha; simpl.
  - repeat constructor.
  - inversion Ha; subst. constructor; [apply IH; assumption|].
    apply Forall_app; split; [exact Hx | repeat constructor; assumption].
Qed.

Lemma descending_bottom_to_top (stack : list N) :
  descending stack -> StronglySorted N.lt (bottom_to_top stack).
Proof.
  unfold bottom_to_top. induction 1 as [|top rest Hr IH Ht]; simpl.
  - constructor.
  - apply strongly_sorted_snoc; [exact IH|]. apply Forall_rev. exact Ht.
Qed.

Lemma descending_skipn (j : nat) : forall stack,
  descending stack -> descending (skipn j stack).
Proof.
  induction j as [|j IH]; intros stack H; [exact H|].
  destruct stack as [|top rest]; [exact H|]. simpl.
  apply IH. inversion H; assumption.
Qed.

Lemma descending_push (indent : N) (stack : list N) :
  descending stack ->
  (forall top, hd_error stack = Some top -> top < indent) ->
  descending (indent :: stack).
Proof.
  intros H Hd. constructor; [exact H|].
  destruct stack as [|top rest]; [constructor|].
  specialize (Hd top eq_refl). inversion H as [|? ? _ Hall]; subst.
  constructor; [exact Hd|].
  eapply Forall_impl; [|exact Hall]. simpl. intros x Hx. lia.
Qed.

Lemma strongly_sorted_adjacent (l : list N) :
  StronglySorted N.lt l ->
  forall i a b, nth_error l i = Some a -> nth_error l (S i) = Some b -> a < b.
Proof.
  induction 1 as [|x l Hl IH Hx]; intros i a b Ha Hb.
  - destruct i; discriminate.
  - destruct i as [|i]; simpl in Ha, Hb.
    + injection Ha as <-. destruct l as [|y l]; [discriminate|].
      simpl in Hb. injection Hb as <-. inversion Hx; assumption.
    + eapply IH; eauto.
Qed.

(** The loop that closes the ended loops pops the frames at or beyond the
    line's indentation, one loop-close each, and stops at the first frame
    that is less indented. *)
Lemma close_loops_spec (indent : N) (stack : list N) :
  forall out, exists j,
    close_loops indent out stack = (out ++ repeat (py "]") j, skipn j stack) /\
    Forall (fun top => indent <= top) (firstn j stack) /\
    (forall top, hd_error (skipn j stack) = Some top -> top < indent).
Proof.
  induction stack as [|top rest IH]; intros out.
  - exists O. simpl. rewrite app_nil_r. repeat split; [constructor | discriminate].
  - cbn [close_loops]. destruct (indent <=? top) eqn:E.
    + destruct (IH (out ++ [py "]"])) as (j & Hc & Hf & Hh).
      exists (S j). cbn [repeat skipn firstn]. rewrite Hc, <- app_assoc.
      repeat split.
      * constructor; [apply N.leb_le; exact E | exact Hf].
      * exact Hh.
    + exists O. simpl. rewrite app_nil_r. repeat split; [constructor|].
      intros t Ht. injection Ht as <-. apply N.leb_gt. exact E.
Qed.

Lemma close_ended_loops_stack (indent : N) (st : state) :
  descending (loop_stack st) ->
  descending (loop_stack (close_ended_loops indent st)) /\
  (forall top, hd_error (loop_stack (close_ended_loops indent st)) = Some top ->
               top < indent).
Proof.
  intros H. unfold close_ended_loops.
  destruct (close_loops_spec indent (loop_stack st) (output st)) as (j & -> & _ & Hh).
  simpl. split; [apply descending_skipn; exact H | exact Hh].
Qed.

Section StackOrder.
Variable db : unicode_tables.

Lemma process_line_stack (indent : N) (content : pystr) (st st' : state) :
  process_line db indent content st = Ok st' ->
  descending (loop_stack st) -> descending (loop_stack st').
Proof.
  unfold process_line. destruct (is_empty content).
  { intros H; inversion H; subst; auto. }
  intros H D. destruct (close_ended_loops_stack indent st D) as [D' Hh].
  apply dispatch_extends in H. destruct H as [->|[-> _]]; [|exact D'].
  simpl. apply descending_push; assumption.
Qed.

Lemma process_lines_stack (lines : list (N * pystr)) :
  forall line_num st st',
    process_lines db line_num lines st = Ok st' ->
    descending (loop_stack st) -> descending (loop_stack st').
Proof.
  induction lines as [|[indent content] rest IH]; simpl; intros n st st' H D.
  - inversion H; subst; exact D.
  - destruct (process_line db indent content st) as [st1|e] eqn:E; [|discriminate].
    eapply IH; [exact H|]. eapply process_line_stack; eauto.
Qed.
End StackOrder.

(* ================================================================== *)
(** ** Evaluating statements *)

Lemma ent_string_spec (cs : pystr) : forall i st,
  loop_stack (ent_string i cs st) = loop_stack st /\
  concat (output (ent_string i cs st))
  = concat (output st) ++ string_tokens (Nat.eqb i 0) cs.
Proof.
  induction cs as [|c cs IH]; intros i st.
  - simpl. rewrite app_nil_r. auto.
  - cbn [ent_string string_tokens]. destruct (IH (S i)
      (append (str_mul (py "+") c)
         (append (py "[-]") (if Nat.ltb 0 i then append (py ">") st else st))))
      as [Hs Ho].
    rewrite Hs, Ho. clear IH Hs Ho.
    change (py "+") with [43]. rewrite str_mul_char.
    destruct i as [|i]; cbn [Nat.ltb Nat.leb Nat.eqb]; unfold append;
      cbn [output loop_stack]; (split; [reflexivity|]);
      rewrite !concat_app; cbn [concat]; rewrite !app_nil_r, <- !app_assoc;
      reflexivity.
Qed.

Section Statements.
Variable db : unicode_tables.

(** A line that ends with a semicolon: the ended loops are closed, the
    semicolon is dropped and the rest is dispatched. *)
Lemma process_line_statement (indent : N) (body : pystr) (st : state) :
  process_line db indent (body ++ py ";") st
  = dispatch db indent body (close_ended_loops indent st).
Proof.
  unfold process_line.
  replace (is_empty (body ++ py ";")) with false by (destruct body; reflexivity).
  change (py ";") with [59]. rewrite endswith_last, removelast_last.
  reflexivity.
Qed.

Lemma dispatch_ent (indent : N) (v : pystr) (st : state) :
  dispatch db indent (py "ent " ++ v) st = handle_ent db v st.
Proof. reflexivity. Qed.

Lemma handle_ent_string (cs : pystr) (st : state) :
  handle_ent db (dquote ++ cs ++ dquote) st = Ok (ent_string 0 cs st).
Proof.
  unfold handle_ent. change (dquote ++ cs ++ dquote) with (34 :: cs ++ [34]).
  assert (E : strip db (34 :: cs ++ [34]) = 34 :: cs ++ [34]).
  { unfold strip. rewrite (lstrip_first db) by reflexivity.
    change (34 :: cs ++ [34]) with ((34 :: cs) ++ [34]).
    apply rstrip_last. reflexivity. }
  rewrite E. clear E.
  change (str_eqb (34 :: cs ++ [34]) (py "input")) with false.
  change (startswith (34 :: cs ++ [34]) (py "'")) with false.
  cbn [andb]. change (startswith (34 :: cs ++ [34]) dquote) with true.
  change (34 :: cs ++ [34]) with ((34 :: cs) ++ [34]) at 1.
  change dquote with [34]. rewrite endswith_last. cbn [andb skipn].
  rewrite removelast_last. reflexivity.
Qed.

Lemma handle_ent_digits (ds : pystr) (st : state) :
  ds <> [] -> Forall ascii_digit ds ->
  handle_ent db ds st
  = match int db ds with
    | None => Raise (InvalidLiteralForInt ds)
    | Some num =>
        if 255 <? num then Raise (ValueTooLarge num)
        else Ok (append (repeat 43 (N.to_nat num)) (append (py "[-]") st))
    end.
Proof.
  intros Hne H. unfold handle_ent.
  rewrite (strip_ascii_digits db ds H), (isdigit_ascii_digits db ds Hne H).
  destruct ds as [|d ds]; [congruence|].
  assert (Hd : ascii_digit d) by (inversion H; assumption).
  unfold ascii_digit in Hd.
  change (py "input") with (105 :: py "nput"). change (py "'") with [39].
  unfold dquote. cbn [str_eqb startswith].
  replace (d =? 105) with false by (symmetry; apply N.eqb_neq; lia).
  replace (d =? 39) with false by (symmetry; apply N.eqb_neq; lia).
  replace (d =? 34) with false by (symmetry; apply N.eqb_neq; lia).
  cbn [andb]. change (py "+") with [43].
  destruct (int db (d :: ds)) as [num|]; [|reflexivity].
  rewrite str_mul_char. reflexivity.
Qed.





End Statements.

(* ================================================================== *)
(** ** The loops over the lines *)

Section Lines.
Variable db : unicode_tables.

(** A failure of the loop over the lines is the failure of one line,
    wrapped with its position, after the lines before it went through. *)
Lemma process_lines_raise (lines : list (N * pystr)) :
  forall line_num st e,
    process_lines db line_num lines st = Raise e ->
    exists n indent content e' st',
      nth_error lines n = Some (indent, content) /\
      e = ErrorOnLine (line_num + N.of_nat n) e' /\
      process_lines db line_num (firstn n lines) st = Ok st' /\
      process_line db indent content st' = Raise e'.
Proof.
  induction lines as [|[indent content] rest IH]; intros k st e H;
    [discriminate|].
  cbn [process_lines] in H.
  destruct (process_line db indent content st) as [st1|e1] eqn:E.
  - destruct (IH _ _ _ H) as (n & i & c & e' & st' & Hn & He & Hf & Hl).
    exists (S n), i, c, e', st'. cbn [nth_error firstn process_lines].
    rewrite E. repeat split; try assumption. rewrite He. f_equal. lia.
  - inversion H; subst. exists O, indent, content, e1, st.
    cbn [nth_error firstn process_lines]. rewrite N.add_0_r. auto.
Qed.

Lemma preprocess_line_raise (line : pystr) (e : error) :
  preprocess_line db line = Raise e ->
  e = LineMustEndWithSemicolon (strip db (remove_comment line)).
Proof.
  unfold preprocess_line.
  destruct (is_empty (strip db (remove_comment line))); [discriminate|].
  destruct (_ && _); [|discriminate]. intros H; inversion H; reflexivity.
Qed.

Lemma preprocess_line_unterminated (line : pystr) :
  strip db (remove_comment line) <> [] ->
  endswith (strip db (remove_comment line)) (py ":") = false ->
  endswith (strip db (remove_comment line)) (py ";") = false ->
  preprocess_line db line
  = Raise (LineMustEndWithSemicolon (strip db (remove_comment line))).
Proof.
  intros Hne H1 H2. unfold preprocess_line. rewrite H1, H2.
  destruct (strip db (remove_comment line)); [congruence | reflexivity].
Qed.

Lemma preprocess_from_raise (lines : list pystr) :
  forall processed e,
    preprocess_from db lines processed = Raise e ->
    exists content, e = LineMustEndWithSemicolon content.
Proof.
  induction lines as [|line rest IH]; intros acc e H; [discriminate|].
  cbn [preprocess_from] in H.
  destruct (preprocess_line db line) as [[p|]|e1] eqn:E; simpl in H.
  - eapply IH; exact H.
  - eapply IH; exact H.
  - inversion H; subst. apply preprocess_line_raise in E. eauto.
Qed.

(** The normalizer fails at the first line it refuses. *)
Lemma preprocess_from_first (line : pystr) (post : list pystr) (e : error) :
  preprocess_line db line = Raise e ->
  forall pre processed,
    (exists first,
        (first = line \/ In first pre) /\
        preprocess_from db (pre ++ line :: post) processed
        = Raise (LineMustEndWithSemicolon (strip db (remove_comment first)))) /\
    ((forall l, In l pre -> exists r, preprocess_line db l = Ok r) ->
     preprocess_from db (pre ++ line :: post) processed = Raise e).
Proof.
  intros Hl. induction pre as [|l pre IH]; intros acc.
  - cbn [app preprocess_from]. rewrite Hl. simpl. split; [|reflexivity].
    exists line. split; [left; reflexivity|].
    rewrite (preprocess_line_raise line e Hl). reflexivity.
  - cbn [app preprocess_from].
    destruct (preprocess_line db l) as [[p|]|e1] eqn:E; simpl.
    + destruct (IH (acc ++ [p])) as [(first & Hf & Hr) Hall]. split.
      * exists first. split; [|exact Hr]. destruct Hf; [left|right; right]; auto.
      * intros Hok. apply Hall. intros x Hx. apply Hok. right; exact Hx.
    + destruct (IH acc) as [(first & Hf & Hr) Hall]. split.
      * exists first. split; [|exact Hr]. destruct Hf; [left|right; right]; auto.
      * intros Hok. apply Hall. intros x Hx. apply Hok. right; exact Hx.
    + split.
      * exists l. split; [right; left; reflexivity|].
        rewrite (preprocess_line_raise l e1 E). reflexivity.
      * intros Hok. destruct (Hok l (or_introl eq_refl)) as [r Hr]. congruence.
Qed.

Lemma compile_preprocess_raise (src : pystr) (e : error) :
  preprocess_lines db (split_newline src) = Raise e -> compile db src = Raise e.
Proof. unfold compile. intros ->. reflexivity. Qed.

(** When nothing is left to close, the closing loop does nothing. *)
Lemma close_loops_none (indent : N) (out : list pystr) (stack : list N) :
  (forall top, hd_error stack = Some top -> top < indent) ->
  close_loops indent out stack = (out, stack).
Proof.
  destruct stack as [|top rest]; [reflexivity|]. intros H. cbn [close_loops].
  replace (indent <=? top) with false; [reflexivity|].
  symmetry. apply N.leb_gt, H. reflexivity.
Qed.
End Lines.

(* ================================================================== *)
(** ** Properties of the compiler *)

(** C1. For every program that compiles, the output has as many loop-open
    as loop-close tokens and they are properly nested: the prefix-sum walk
    (+1 for a loop-open, -1 for a loop-close) never goes negative and ends
    at 0.  Loops left unterminated are covered: the output is what the last
    line leaves, followed by one loop-close for each frame still open. *)
Theorem loops_balanced_and_nested (db : unicode_tables) (src out : pystr) :
  compile db src = Ok out ->
  count_occ N.eq_dec out 91 = count_occ N.eq_dec out 93 /\
  well_nested out /\
  exists lines st,
    preprocess_lines db (split_newline src) = Ok lines /\
    process_lines db 1 lines init = Ok st /\
    out = concat (output st) ++ concat (repeat (py "]") (length (loop_stack st))).
Proof.
  intros H. destruct (compile_output_inv db src out H) as [_ W].
  split; [|split; [exact W|]].
  - destruct W as [_ S0]. rewrite prefix_sum_count in S0. lia.
  - destruct (compile_ok db src out H) as (lines & st & Hp & Hl & ->).
    exists lines, st. repeat split; try assumption.
    unfold close_remaining_loops. rewrite flush_loops_spec. simpl.
    apply concat_app.
Qed.

Lemma loops_balanced_and_nested_witness :
  compile ascii_only (py "loop:" ++ [10] ++ py "  loop:" ++ [10] ++ py "    inc;")
    = Ok (py "[[+]]") /\
  well_nested (py "[[+]]").
Proof.
  split; [reflexivity|].
  apply (loops_balanced_and_nested ascii_only
           (py "loop:" ++ [10] ++ py "  loop:" ++ [10] ++ py "    inc;")
           (py "[[+]]") eq_refl).
Defined.

(** C2. A character literal, or a character of a string literal, whose
    ordinal exceeds 255 is not refused: [ent] with U+0100 between single
    or double quotes compiles, and emits 256 increments for the one cell,
    where the integer literal 256 is refused with [ValueTooLarge]. *)
Theorem character_above_255_is_accepted (db : unicode_tables) :
  compile db (py "ent '" ++ [256] ++ py "';") = Ok (py "[-]" ++ repeat 43 256) /\
  compile db (py "ent " ++ dquote ++ [256] ++ dquote ++ py ";")
    = Ok (py "[-]" ++ repeat 43 256) /\
  compile db (py "ent 256;") = Raise (ErrorOnLine 1 (ValueTooLarge 256)).
Proof. repeat split; vm_compute; reflexivity. Qed.

(** C3. Not every error is reported with the position of its line.  An
    error raised while a line is processed is wrapped with a line number,
    as for [inc x;], but a line with a malformed terminator is refused by
    the normalizer, which [compile] calls outside the handler that wraps:
    the error of the one-line program [inc] carries the content of the
    line and no position.  The number of a wrapped error counts the
    lines that the normalizer kept: after a blank line and a comment line,
    the error of the third line of the source is reported on line 1. *)
Theorem terminator_error_is_not_located (db : unicode_tables) :
  compile db (py "inc") = Raise (LineMustEndWithSemicolon (py "inc")) /\
  compile db (py "inc x;")
    = Raise (ErrorOnLine 1 (InvalidIncrementAmount (py "x"))) /\
  compile db ([10] ++ py "// note" ++ [10] ++ py "inc x;")
    = Raise (ErrorOnLine 1 (InvalidIncrementAmount (py "x"))).
Proof. repeat split. Qed.

(** C4. A string literal emits, for each character in order, a forward
    shift before every character but the first, then the clear idiom and
    the character's ordinal in increments, with no shift back at the end;
    [ent "AB";] emits the clear idiom, 65 increments, one forward shift,
    the clear idiom and 66 increments. *)
Theorem string_literal_tokens
    (db : unicode_tables) (indent : N) (cs : pystr) (st : state) :
  (exists st',
      process_line db indent (py "ent " ++ dquote ++ cs ++ dquote ++ py ";") st
        = Ok st' /\
      loop_stack st' = loop_stack (close_ended_loops indent st) /\
      concat (output st')
        = concat (output (close_ended_loops indent st)) ++ string_tokens true cs) /\
  string_tokens true (py "AB")
    = py "[-]" ++ repeat 43 65 ++ py ">" ++ py "[-]" ++ repeat 43 66 /\
  compile db (py "ent " ++ dquote ++ py "AB" ++ dquote ++ py ";")
    = Ok (py "[-]" ++ repeat 43 65 ++ py ">" ++ py "[-]" ++ repeat 43 66).
Proof.
  split; [|split; vm_compute; reflexivity].
  exists (ent_string 0 cs (close_ended_loops indent st)).
  replace (py "ent " ++ dquote ++ cs ++ dquote ++ py ";")
    with ((py "ent " ++ dquote ++ cs ++ dquote) ++ py ";")
    by (rewrite <- !app_assoc; reflexivity).
  rewrite process_line_statement, dispatch_ent, handle_ent_string.
  split; [reflexivity|]. apply ent_string_spec.
Qed.

(** C5, as stated, fails: an operand of 4301 zeros is made of decimal
    digits only and its value, 0, is at most 255, yet [ent] followed by it
    does not compile to the clear idiom: the conversion of the operand to
    an integer refuses a string of more than 4300 digits. *)
Lemma operand_of_4301_zeros_is_refused :
  ~ (decimal_value (repeat 48 (N.to_nat 4301)) <= 255 ->
     compile ascii_only (py "ent " ++ repeat 48 (N.to_nat 4301) ++ py ";")
     = Ok (py "[-]"
             ++ repeat 43 (N.to_nat (decimal_value (repeat 48 (N.to_nat 4301)))))).
Proof.
  intros H.
  assert (V : decimal_value (repeat 48 (N.to_nat 4301)) <= 255)
    by (vm_compute; discriminate).
  assert (E : compile ascii_only (py "ent " ++ repeat 48 (N.to_nat 4301) ++ py ";")
              = Raise (ErrorOnLine 1
                         (InvalidLiteralForInt (repeat 48 (N.to_nat 4301)))))
    by (vm_compute; reflexivity).
  specialize (H V). rewrite E in H. discriminate H.
Qed.

(** C5, amended. For an operand of decimal digits only, of value N and of
    at most 4300 digits: [ent N;] emits the clear idiom and exactly N
    increments when N <= 255, and fails with the range error that names N
    when N > 255.  An operand of more than 4300 digits fails with the
    value error of the conversion, whatever its value.  [ent 0;] emits
    the clear idiom alone, [ent 255;] compiles and [ent 256;] fails. *)
Theorem integer_literal_tokens
    (db : unicode_tables) (indent : N) (ds : pystr) (st : state) :
  ds <> [] -> Forall ascii_digit ds ->
  (N.of_nat (length ds) <= int_max_str_digits ->
   process_line db indent (py "ent " ++ ds ++ py ";") st
     = (if decimal_value ds <=? 255
        then Ok (append (repeat 43 (N.to_nat (decimal_value ds)))
                   (append (py "[-]") (close_ended_loops indent st)))
        else Raise (ValueTooLarge (decimal_value ds)))) /\
  (int_max_str_digits < N.of_nat (length ds) ->
   process_line db indent (py "ent " ++ ds ++ py ";") st
     = Raise (InvalidLiteralForInt ds)) /\
  class_of (ValueTooLarge (decimal_value ds)) = ValueError /\
  class_of (InvalidLiteralForInt ds) = ValueError /\
  compile db (py "ent 0;") = Ok (py "[-]") /\
  compile db (py "ent 255;") = Ok (py "[-]" ++ repeat 43 255) /\
  compile db (py "ent 256;") = Raise (ErrorOnLine 1 (ValueTooLarge 256)).
Proof.
  intros Hne H.
  assert (E : process_line db indent (py "ent " ++ ds ++ py ";") st
              = handle_ent db ds (close_ended_loops indent st))
    by (rewrite app_assoc, process_line_statement; apply dispatch_ent).
  rewrite E, handle_ent_digits by assumption.
  split; [|split; [|repeat split; vm_compute; reflexivity]].
  - intros Hlen. rewrite (int_ascii_digits db ds Hne H Hlen).
    rewrite N.ltb_antisym. destruct (decimal_value ds <=? 255); reflexivity.
  - intros Hlen. rewrite (int_too_long db ds Hlen). reflexivity.
Qed.

Lemma integer_literal_tokens_witness :
  py "007" <> [] /\ Forall ascii_digit (py "007") /\
  process_line ascii_only 0 (py "ent 007;") init
    = Ok (append (repeat 43 7) (append (py "[-]") (close_ended_loops 0 init))).
Proof.
  assert (Hne : py "007" <> []) by discriminate.
  assert (Hd : Forall ascii_digit (py "007"))
    by (repeat constructor; vm_compute; discriminate).
  split; [exact Hne|]. split; [exact Hd|].
  refine (proj1 (integer_literal_tokens ascii_only 0 (py "007") init Hne Hd) _).
  vm_compute. discriminate.
Defined.




(** C7. The loop stack is strictly increasing from bottom to top at every
    point of a compilation.  The stack is changed only by the pops before
    a line's statement, by the push of [loop:] that ends the line, and by
    the pops of the final flush, so every stack a compilation passes
    through is what is left, after some pops, of the stack [st] that some
    number of lines has built.  For each such stack: it is strictly
    increasing; the next line pops, with one loop-close each, the frames
    whose indent is at or beyond its own and stops at the first frame that
    is less indented, before its statement is dispatched; a [loop:] at the
    indent of the top frame closes that loop and pushes its own frame in
    its place; and two adjacent frames never share an indent. *)
Theorem loop_stack_strictly_increasing
    (db : unicode_tables) (lines : list (N * pystr)) (n : nat) (st : state) :
  process_lines db 1 (firstn n lines) init = Ok st ->
  (forall j, StronglySorted N.lt (bottom_to_top (skipn j (loop_stack st)))) /\
  (forall indent, exists j,
      close_loops indent (output st) (loop_stack st)
        = (output st ++ repeat (py "]") j, skipn j (loop_stack st)) /\
      Forall (fun top => indent <= top) (firstn j (loop_stack st)) /\
      (forall top, hd_error (skipn j (loop_stack st)) = Some top -> top < indent)) /\
  (forall indent content, content <> [] ->
      process_line db indent content st
        = dispatch db indent
            (if endswith content (py ";") then removelast content else content)
            (close_ended_loops indent st)) /\
  (forall top rest, loop_stack st = top :: rest ->
      exists st',
        process_line db top (py "loop:") st = Ok st' /\
        output st' = output st ++ [py "]"; py "["] /\
        loop_stack st' = top :: rest) /\
  (forall i a b,
      nth_error (bottom_to_top (loop_stack st)) i = Some a ->
      nth_error (bottom_to_top (loop_stack st)) (S i) = Some b ->
      a < b).
Proof.
  intros H.
  assert (D : descending (loop_stack st)).
  { eapply process_lines_stack; [exact H | constructor]. }
  split; [|split; [|split; [|split]]].
  - intros j. apply descending_bottom_to_top, descending_skipn, D.
  - intros indent. apply close_loops_spec.
  - intros indent [|c content] Hne; [congruence | reflexivity].
  - intros top rest E.
    exists (handle_loop top
              {| output := output st ++ [py "]"];
                 current_indent := current_indent st;
                 loop_stack := rest |}).
    split; [|split].
    + change (process_line db top (py "loop:") st)
        with (Ok (handle_loop top (close_ended_loops top st))).
      do 2 f_equal. unfold close_ended_loops. rewrite E. cbn [close_loops].
      rewrite N.leb_refl. rewrite close_loops_none; [reflexivity|].
      rewrite E in D. inversion D as [|? ? _ Hall]; subst.
      intros t Ht. destruct rest as [|r rest]; [discriminate|].
      injection Ht as <-. inversion Hall; assumption.
    + unfold handle_loop, append. cbn [output]. rewrite <- app_assoc. reflexivity.
    + reflexivity.
  - apply strongly_sorted_adjacent, descending_bottom_to_top, D.
Qed.

Lemma loop_stack_strictly_increasing_witness :
  process_lines ascii_only 1
    (firstn 2 [(0, py "loop:"); (2, py "loop:"); (4, py "inc;")]) init
    = Ok {| output := [py "["; py "["]; current_indent := 0; loop_stack := [2; 0] |} /\
  StronglySorted N.lt (bottom_to_top [2; 0]).
Proof.
  split; [reflexivity|].
  exact (proj1 (loop_stack_strictly_increasing ascii_only
                  [(0, py "loop:"); (2, py "loop:"); (4, py "inc;")] 2
                  {| output := [py "["; py "["]; current_indent := 0;
                     loop_stack := [2; 0] |} eq_refl) O).
Defined.

(** C8. A line that is not blank once its comment is removed, and whose
    trimmed content ends with neither a colon nor a semicolon, is refused
    by the normalizer with the syntax error that carries its content.  The
    compilation of a program with such a line fails with that error for
    the first line the normalizer refuses, which is this line when the
    lines before it are accepted; the failure is the normalizer's, so no
    line has been dispatched when it occurs. *)
Theorem unterminated_line_is_refused
    (db : unicode_tables) (src : pystr) (pre : list pystr) (line : pystr)
    (post : list pystr) :
  split_newline src = pre ++ line :: post ->
  strip db (remove_comment line) <> [] ->
  endswith (strip db (remove_comment line)) (py ":") = false ->
  endswith (strip db (remove_comment line)) (py ";") = false ->
  preprocess_line db line
    = Raise (LineMustEndWithSemicolon (strip db (remove_comment line))) /\
  class_of (LineMustEndWithSemicolon (strip db (remove_comment line)))
    = SyntaxError /\
  (exists first,
      (first = line \/ In first pre) /\
      preprocess_lines db (split_newline src)
        = Raise (LineMustEndWithSemicolon (strip db (remove_comment first))) /\
      compile db src
        = Raise (LineMustEndWithSemicolon (strip db (remove_comment first)))) /\
  ((forall l, In l pre -> exists r, preprocess_line db l = Ok r) ->
   preprocess_lines db (split_newline src)
     = Raise (LineMustEndWithSemicolon (strip db (remove_comment line))) /\
   compile db src
     = Raise (LineMustEndWithSemicolon (strip db (remove_comment line)))).
Proof.
  intros Hsplit Hne H1 H2.
  pose proof (preprocess_line_unterminated db line Hne H1 H2) as Hl.
  split; [exact Hl|]. split; [reflexivity|].
  destruct (preprocess_from_first db line post _ Hl pre []) as [(first & Hf & Hr) Hall].
  unfold preprocess_lines. rewrite Hsplit. split.
  - exists first. split; [exact Hf|]. split; [exact Hr|].
    apply compile_preprocess_raise. unfold preprocess_lines. rewrite Hsplit.
    exact Hr.
  - intros Hok. specialize (Hall Hok). split; [exact Hall|].
    apply compile_preprocess_raise. unfold preprocess_lines. rewrite Hsplit.
    exact Hall.
Qed.

Lemma unterminated_line_is_refused_witness :
  compile ascii_only (py "inc;" ++ [10] ++ py "  dec 2 // twice")
    = Raise (LineMustEndWithSemicolon (py "dec 2")).
Proof.
  assert (Hne : strip ascii_only (remove_comment (py "  dec 2 // twice")) <> [])
    by (vm_compute; discriminate).
  destruct (unterminated_line_is_refused ascii_only
              (py "inc;" ++ [10] ++ py "  dec 2 // twice")
              [py "inc;"] (py "  dec 2 // twice") [] eq_refl Hne eq_refl eq_refl)
    as (_ & _ & _ & Hlast).
  apply Hlast. intros l [<-|[]]. eexists. reflexivity.
Defined.

(** C9. For every program that compiles, every character of the output is
    one of the eight primitive tokens. *)
Theorem output_is_primitive (db : unicode_tables) (src out : pystr) :
  compile db src = Ok out -> Forall primitive out.
Proof. intros H. apply (compile_output_inv db src out H). Qed.

Lemma output_is_primitive_witness :
  compile ascii_only (py "ent input;" ++ [10] ++ py "cellout;") = Ok (py "[-],.") /\
  Forall primitive (py "[-],.").
Proof.
  split; [reflexivity|].
  apply (output_is_primitive ascii_only
           (py "ent input;" ++ [10] ++ py "cellout;") (py "[-],.") eq_refl).
Defined.

(** C10. The empty string literal compiles and emits nothing, not even a
    clear idiom: the line leaves the state that closing the ended loops
    gives, and as a whole program it yields the empty output. *)
Theorem empty_string_literal_emits_nothing
    (db : unicode_tables) (indent : N) (st : state) :
  process_line db indent (py "ent " ++ dquote ++ dquote ++ py ";") st
    = Ok (close_ended_loops indent st) /\
  compile db (py "ent " ++ dquote ++ dquote ++ py ";") = Ok [].
Proof.
  split; [|vm_compute; reflexivity].
  change (py "ent " ++ dquote ++ dquote ++ py ";")
    with ((py "ent " ++ dquote ++ [] ++ dquote) ++ py ";").
  rewrite process_line_statement, dispatch_ent, handle_ent_string. reflexivity.
Qed.

(* ================================================================== *)
(** ** Further lemmas on strings and lines *)

Lemma split_newline_nonempty (s : pystr) : split_newline s <> [].
Proof.
  destruct s as [|c s]; simpl; [discriminate|].
  destruct (c =? 10); [discriminate|].
  destruct (split_newline s); discriminate.
Qed.

Lemma split_newline_app (a b : pystr) :
  split_newline (a ++ 10 :: b) = split_newline a ++ split_newline b.
Proof.
  induction a as [|c a IH]; [reflexivity|].
  cbn [app split_newline]. destruct (c =? 10).
  - rewrite IH. reflexivity.
  - rewrite IH. pose proof (split_newline_nonempty a) as Hne.
    destruct (split_newline a) as [|l ls]; [congruence | reflexivity].
Qed.

Lemma split_newline_single (s : pystr) : ~ In 10 s -> split_newline s = [s].
Proof.
  induction s as [|c s IH]; intros H; [reflexivity|].
  cbn [split_newline]. destruct (c =? 10) eqn:E.
  - apply N.eqb_eq in E. subst. exfalso. apply H. left; reflexivity.
  - rewrite IH; [reflexivity|]. intros Hin. apply H. right; exact Hin.
Qed.

Lemma dropwhile_last (p : N -> bool) (l : pystr) (c : char) :
  p c = false -> dropwhile p (l ++ [c]) = dropwhile p l ++ [c].
Proof.
  intros Hc. induction l as [|x l IH]; simpl; [rewrite Hc; reflexivity|].
  destruct (p x); [exact IH | reflexivity].
Qed.

Lemma dropwhile_idem (p : N -> bool) (l : pystr) :
  dropwhile p (dropwhile p l) = dropwhile p l.
Proof.
  induction l as [|x l IH]; simpl; [reflexivity|].
  destruct (p x) eqn:E; [exact IH|]. simpl. rewrite E. reflexivity.
Qed.

Lemma dropwhile_space_last (p : N -> bool) (l : pystr) (c : char) :
  p c = true ->
  dropwhile p (l ++ [c])
  = match dropwhile p l with [] => [] | x :: r => (x :: r) ++ [c] end.
Proof.
  intros Hc. induction l as [|x l IH]; simpl; [rewrite Hc; reflexivity|].
  destruct (p x); [exact IH | reflexivity].
Qed.

Section MoreStringFacts.
Variable db : unicode_tables.

Lemma strip_cases (s : pystr) :
  strip db s = [] \/
  exists c u, strip db s = c :: u /\ char_isspace db c = false /\
              lstrip db (c :: u) = c :: u /\ rstrip db (c :: u) = c :: u.
Proof.
  unfold strip. destruct (lstrip db s) as [|c t] eqn:E; [left; reflexivity|].
  right. assert (Hc : char_isspace db c = false).
  { unfold lstrip in E. eapply dropwhile_head; exact E. }
  exists c, (rev (dropwhile (char_isspace db) (rev t))).
  assert (R : rstrip db (c :: t) = c :: rev (dropwhile (char_isspace db) (rev t))).
  { unfold rstrip. cbn [rev]. rewrite dropwhile_last by exact Hc.
    rewrite rev_app_distr. reflexivity. }
  split; [exact R|]. split; [exact Hc|]. split.
  - apply lstrip_first. exact Hc.
  - unfold rstrip. cbn [rev]. rewrite rev_involutive.
    rewrite dropwhile_last by exact Hc. rewrite dropwhile_idem.
    rewrite rev_app_distr. reflexivity.
Qed.

Lemma strip_idempotent (s : pystr) : strip db (strip db s) = strip db s.
Proof.
  destruct (strip_cases s) as [E|(c & u & E & _ & L & R)]; rewrite E.
  - reflexivity.
  - unfold strip. rewrite L. exact R.
Qed.
End MoreStringFacts.

(* ================================================================== *)
(** ** Emission does not look at what was emitted before *)

Lemma append_rebase (x : pystr) (p : list pystr) (ci : N) (st : state) :
  append x (rebase p ci st) = rebase p ci (append x st).
Proof.
  unfold append, rebase. cbn [output loop_stack current_indent].
  rewrite app_assoc. reflexivity.
Qed.

Lemma handle_loop_rebase (indent : N) (p : list pystr) (ci : N) (st : state) :
  handle_loop indent (rebase p ci st) = rebase p ci (handle_loop indent st).
Proof.
  unfold handle_loop. rewrite append_rebase. reflexivity.
Qed.

Lemma ent_string_rebase (cs : pystr) (p : list pystr) (ci : N) :
  forall i st, ent_string i cs (rebase p ci st) = rebase p ci (ent_string i cs st).
Proof.
  induction cs as [|c cs IH]; intros i st; [reflexivity|].
  cbn [ent_string]. destruct (Nat.ltb 0 i); rewrite !append_rebase; apply IH.
Qed.

Lemma close_loops_rebase (indent : N) (p : list pystr) (stack : list N) :
  forall out,
    close_loops indent (p ++ out) stack
    = (p ++ fst (close_loops indent out stack), snd (close_loops indent out stack)).
Proof.
  induction stack as [|top rest IH]; intros out; [reflexivity|].
  cbn [close_loops]. destruct (indent <=? top); [|reflexivity].
  rewrite <- app_assoc. apply IH.
Qed.

Lemma close_ended_loops_rebase (indent : N) (p : list pystr) (ci : N) (st : state) :
  close_ended_loops indent (rebase p ci st)
  = rebase p ci (close_ended_loops indent st).
Proof.
  unfold close_ended_loops, rebase. cbn [output loop_stack current_indent].
  rewrite close_loops_rebase.
  destruct (close_loops indent (output st) (loop_stack st)); reflexivity.
Qed.

Lemma flush_loops_rebase (p : list pystr) (ci : N) (st : state) :
  close_remaining_loops (rebase p ci st)
  = rebase p ci (close_remaining_loops st).
Proof.
  unfold close_remaining_loops, rebase. cbn [output loop_stack current_indent].
  rewrite !flush_loops_spec. cbn [output]. rewrite app_assoc. reflexivity.
Qed.

Ltac rebase_cases :=
  repeat match goal with
         | |- context [if ?b then _ else _] => destruct b
         | |- context [match ?o with Some _ => _ | None => _ end] => destruct o
         | |- context [str_repeat ?s ?n] => destruct (str_repeat s n); cbn [bind]
         end;
  cbn [lift]; rewrite ?append_rebase; reflexivity.

Section Rebase.
Variable db : unicode_tables.
Variables (p : list pystr) (ci : N).

Lemma handle_ent_rebase (v : pystr) (st : state) :
  handle_ent db v (rebase p ci st) = lift p ci (handle_ent db v st).
Proof.
  unfold handle_ent.
  destruct (str_eqb (strip db v) (py "input")); [rebase_cases|].
  destruct (_ && _ && _); [rebase_cases|].
  destruct (_ && _); [cbn [lift]; rewrite ent_string_rebase; reflexivity|].
  rebase_cases.
Qed.

Lemma handle_multi_shift_rebase (s : pystr) (st : state) :
  handle_multi_shift db s (rebase p ci st) = lift p ci (handle_multi_shift db s st).
Proof.
  unfold handle_multi_shift.
  destruct (startswith s (py "<<")); [|destruct (startswith s (py ">>"))];
    cbn [bind]; rebase_cases.
Qed.

Lemma handle_inc_rebase (s : pystr) (st : state) :
  handle_inc db s (rebase p ci st) = lift p ci (handle_inc db s st).
Proof. unfold handle_inc. rebase_cases. Qed.

Lemma handle_dec_rebase (s : pystr) (st : state) :
  handle_dec db s (rebase p ci st) = lift p ci (handle_dec db s st).
Proof. unfold handle_dec. rebase_cases. Qed.

Lemma dispatch_rebase (indent : N) (content : pystr) (st : state) :
  dispatch db indent content (rebase p ci st)
  = lift p ci (dispatch db indent content st).
Proof.
  unfold dispatch.
  destruct (startswith content (py "loop:"));
    [cbn [lift]; rewrite handle_loop_rebase; reflexivity|].
  destruct (startswith content (py "ent ")); [apply handle_ent_rebase|].
  destruct (str_eqb content (py "cellout"));
    [unfold handle_cellout; cbn [lift]; rewrite append_rebase; reflexivity|].
  destruct (_ || _);
    [unfold handle_shift; cbn [lift]; rewrite append_rebase; reflexivity|].
  destruct (_ || _); [apply handle_multi_shift_rebase|].
  destruct (startswith content (py "inc")); [apply handle_inc_rebase|].
  destruct (startswith content (py "dec")); [apply handle_dec_rebase|].
  destruct (str_eqb content (py "clr"));
    [unfold handle_clr; cbn [lift]; rewrite append_rebase; reflexivity|].
  reflexivity.
Qed.

Lemma process_line_rebase (indent : N) (content : pystr) (st : state) :
  process_line db indent content (rebase p ci st)
  = lift p ci (process_line db indent content st).
Proof.
  unfold process_line. destruct (is_empty content); [reflexivity|].
  rewrite close_ended_loops_rebase. apply dispatch_rebase.
Qed.

Lemma process_lines_rebase (lines : list (N * pystr)) :
  forall line_num st,
    process_lines db line_num lines (rebase p ci st)
    = lift p ci (process_lines db line_num lines st).
Proof.
  induction lines as [|[indent content] rest IH]; intros k st; [reflexivity|].
  cbn [process_lines]. rewrite process_line_rebase.
  destruct (process_line db indent content st) as [st1|e]; cbn [lift];
    [apply IH | reflexivity].
Qed.
End Rebase.

Section Composition.
Variable db : unicode_tables.

Lemma process_lines_app (l1 l2 : list (N * pystr)) :
  forall line_num st,
    process_lines db line_num (l1 ++ l2) st
    = (st' <- process_lines db line_num l1 st ;;
       process_lines db (line_num + N.of_nat (length l1)) l2 st').
Proof.
  induction l1 as [|[indent content] l1 IH]; intros k st.
  - cbn. rewrite N.add_0_r. reflexivity.
  - cbn [app process_lines length].
    destruct (process_line db indent content st) as [st1|e]; [|reflexivity].
    rewrite IH. replace (k + 1 + N.of_nat (length l1))
      with (k + N.of_nat (S (length l1))) by lia. reflexivity.
Qed.

(** The state a run of lines ends in does not depend on where the line
    numbers start. *)
Lemma process_lines_renumber (lines : list (N * pystr)) :
  forall k k' st st',
    process_lines db k lines st = Ok st' -> process_lines db k' lines st = Ok st'.
Proof.
  induction lines as [|[indent content] rest IH]; intros k k' st st' H;
    [exact H|].
  cbn [process_lines] in *.
  destruct (process_line db indent content st) as [st1|e]; [|discriminate].
  eapply IH; exact H.
Qed.

Lemma preprocess_from_acc (lines : list pystr) :
  forall acc,
    preprocess_from db lines acc
    = (r <- preprocess_from db lines [] ;; Ok (acc ++ r)).
Proof.
  induction lines as [|line rest IH]; intros acc.
  - cbn. rewrite app_nil_r. reflexivity.
  - cbn [preprocess_from].
    destruct (preprocess_line db line) as [[q|]|e]; cbn [bind];
      [|apply IH | reflexivity].
    rewrite (IH (acc ++ [q])), (IH ([] ++ [q])).
    destruct (preprocess_from db rest []) as [r|e]; cbn [bind]; [|reflexivity].
    rewrite <- app_assoc. reflexivity.
Qed.

Lemma preprocess_from_app (l1 l2 : list pystr) :
  forall acc,
    preprocess_from db (l1 ++ l2) acc
    = (r1 <- preprocess_from db l1 acc ;; preprocess_from db l2 r1).
Proof.
  induction l1 as [|line l1 IH]; intros acc; [reflexivity|].
  cbn [app preprocess_from].
  destruct (preprocess_line db line) as [[q|]|e]; cbn [bind];
    [apply IH | apply IH | reflexivity].
Qed.

Lemma preprocess_lines_app (l1 l2 : list pystr) :
  preprocess_lines db (l1 ++ l2)
  = (r1 <- preprocess_lines db l1 ;;
     r2 <- preprocess_lines db l2 ;; Ok (r1 ++ r2)).
Proof.
  unfold preprocess_lines. rewrite preprocess_from_app.
  destruct (preprocess_from db l1 []) as [r1|e]; cbn [bind]; [|reflexivity].
  apply preprocess_from_acc.
Qed.
End Composition.

(* ================================================================== *)
(** ** Further lemmas on the normalizer *)

Lemma find_bound (sub : pystr) (s : pystr) :
  forall i, find s sub = Some i -> (i <= length s)%nat.
Proof.
  induction s as [|c s IH]; intros i; cbn [find].
  - destruct (startswith [] sub); [|discriminate].
    intros H; injection H as <-. apply Nat.le_0_l.
  - destruct (startswith (c :: s) sub).
    + intros H; injection H as <-. apply Nat.le_0_l.
    + destruct (find s sub) as [j|]; [|discriminate].
      intros H; injection H as <-. simpl. apply le_n_S, IH. reflexivity.
Qed.

Lemma find_comment_cr (line : pystr) :
  find (line ++ [13]) (py "//") = find line (py "//").
Proof.
  induction line as [|c line IH]; [reflexivity|].
  cbn [app find]. rewrite IH.
  replace (startswith (c :: line ++ [13]) (py "//"))
    with (startswith (c :: line) (py "//")); [reflexivity|].
  destruct line as [|x line]; cbn; destruct (c =? 47); reflexivity.
Qed.

Lemma remove_comment_cr (line : pystr) :
  remove_comment (line ++ [13]) = remove_comment line ++ [13] \/
  remove_comment (line ++ [13]) = remove_comment line.
Proof.
  unfold remove_comment. rewrite find_comment_cr.
  destruct (find line (py "//")) as [i|] eqn:E; [right | left; reflexivity].
  apply find_bound in E. rewrite firstn_app.
  replace (i - length line)%nat with O by lia. cbn [firstn].
  apply app_nil_r.
Qed.

Lemma measure_indent_cr (line : pystr) :
  forall acc, measure_indent (line ++ [13]) acc = measure_indent line acc.
Proof.
  induction line as [|c line IH]; intros acc; [reflexivity|].
  cbn [app measure_indent]. rewrite !IH. reflexivity.
Qed.

(** The first comment marker of a line is not inside what precedes it. *)
Lemma find_comment_firstn (s : pystr) :
  forall i, find s (py "//") = Some i -> find (firstn i s) (py "//") = None.
Proof.
  induction s as [|c s IH]; intros i; cbn [find].
  - change (startswith [] (py "//")) with false. discriminate.
  - destruct (startswith (c :: s) (py "//")) eqn:E.
    + intros H; injection H as <-. reflexivity.
    + destruct (find s (py "//")) as [j|] eqn:F; [|discriminate].
      intros H; injection H as <-. cbn [firstn find]. rewrite (IH j eq_refl).
      replace (startswith (c :: firstn j s) (py "//")) with false; [reflexivity|].
      symmetry. destruct j as [|j]; cbn [firstn].
      * cbn. apply andb_false_r.
      * destruct s as [|x s]; [cbn; apply andb_false_r|].
        cbn [firstn]. cbn in E |- *. exact E.
Qed.

Lemma find_none_app_comment (a b : pystr) :
  find a (py "//") = None -> endswith a (py "/") = false ->
  find (a ++ py "//" ++ b) (py "//") = Some (length a).
Proof.
  induction a as [|c a IH]; intros F E; [reflexivity|].
  cbn [find] in F. destruct (startswith (c :: a) (py "//")) eqn:S1;
    [discriminate|].
  destruct (find a (py "//")) as [j|] eqn:Fa; [discriminate|].
  cbn [app find length].
  assert (Ea : a <> [] -> endswith a (py "/") = false).
  { intros Hne. destruct (exists_last Hne) as (a' & x & ->).
    change (c :: a' ++ [x]) with ((c :: a') ++ [x]) in E.
    unfold endswith in *. rewrite rev_app_distr in *. exact E. }
  destruct a as [|x a].
  - cbn in E |- *. rewrite andb_true_r in E. rewrite E. reflexivity.
  - rewrite (IH eq_refl (Ea ltac:(discriminate))).
    assert (S2 : startswith (c :: (x :: a) ++ py "//" ++ b) (py "//") = false)
      by exact S1.
    rewrite S2. reflexivity.
Qed.

Section Normalizer.
Variable db : unicode_tables.

Lemma strip_cr (x : pystr) : strip db (x ++ [13]) = strip db x.
Proof.
  unfold strip, lstrip. rewrite dropwhile_space_last by reflexivity.
  destruct (dropwhile (char_isspace db) x) as [|y r]; [reflexivity|].
  unfold rstrip. rewrite rev_app_distr. reflexivity.
Qed.

Lemma preprocess_line_some (line : pystr) (i : N) (c : pystr) :
  preprocess_line db line = Ok (Some (i, c)) ->
  i = measure_indent (remove_comment line) 0 /\
  c = strip db (remove_comment line) /\
  c <> [] /\
  (endswith c (py ":") = true \/ endswith c (py ";") = true).
Proof.
  unfold preprocess_line.
  destruct (strip db (remove_comment line)) as [|x r] eqn:E; [discriminate|].
  cbn [is_empty negb andb].
  destruct (endswith (x :: r) (py ":")) eqn:E1;
    [|destruct (endswith (x :: r) (py ";")) eqn:E2]; cbn [negb andb];
    try discriminate; intros H; injection H as <- <-;
    (repeat split; [discriminate | auto]).
Qed.

Lemma preprocess_line_blank (line : pystr) :
  strip db (remove_comment line) = [] -> preprocess_line db line = Ok None.
Proof. unfold preprocess_line. intros ->. reflexivity. Qed.

Lemma preprocess_lines_cons (line : pystr) (rest : list pystr) :
  preprocess_lines db (line :: rest)
  = (r <- preprocess_line db line ;;
     rs <- preprocess_lines db rest ;;
     Ok (match r with Some q => q :: rs | None => rs end)).
Proof.
  unfold preprocess_lines. cbn [preprocess_from].
  destruct (preprocess_line db line) as [[q|]|e]; cbn [bind]; [| |reflexivity].
  - rewrite preprocess_from_acc. reflexivity.
  - destruct (preprocess_from db rest []); reflexivity.
Qed.
End Normalizer.

(* ================================================================== *)
(** ** Further properties of the compiler *)

(** X1. The normalizer yields at most one record per line, and each
    record comes from a line of the source: its indent is measured on the
    line without its comment, and its content is that line trimmed, is
    not empty, has no whitespace left at either end, and ends with a
    colon or a semicolon. *)
Theorem normalized_lines_are_statements
    (db : unicode_tables) (lines : list pystr) (processed : list (N * pystr)) :
  preprocess_lines db lines = Ok processed ->
  (length processed <= length lines)%nat /\
  Forall (fun q =>
            (exists line, In line lines /\
               q = (measure_indent (remove_comment line) 0,
                    strip db (remove_comment line))) /\
            snd q <> [] /\
            strip db (snd q) = snd q /\
            (endswith (snd q) (py ":") = true \/ endswith (snd q) (py ";") = true))
         processed.
Proof.
  revert processed. induction lines as [|line rest IH]; intros processed.
  - intros H; injection H as <-. split; [apply Nat.le_refl | constructor].
  - rewrite preprocess_lines_cons.
    destruct (preprocess_line db line) as [[[i c]|]|e] eqn:E; cbn [bind];
      [| |discriminate];
      (destruct (preprocess_lines db rest) as [rs|e'];
       cbn [bind]; [|discriminate]);
      intros H; injection H as <-; destruct (IH rs eq_refl) as [Hlen Hall];
      assert (Hrest :
        Forall (fun q =>
            (exists l, In l (line :: rest) /\
               q = (measure_indent (remove_comment l) 0,
                    strip db (remove_comment l))) /\
            snd q <> [] /\
            strip db (snd q) = snd q /\
            (endswith (snd q) (py ":") = true \/
             endswith (snd q) (py ";") = true)) rs)
        by (eapply Forall_impl; [|exact Hall];
            intros q ((l & Hl & Hq) & Hr); split; [|exact Hr];
            exists l; split; [right; exact Hl | exact Hq]).
    + split; [simpl; lia|]. constructor; [|exact Hrest].
      destruct (preprocess_line_some db line i c E) as (-> & -> & Hne & Ht).
      cbn [snd]. split; [|split; [exact Hne | split; [apply strip_idempotent | exact Ht]]].
      exists line. split; [left; reflexivity | reflexivity].
    + split; [simpl; lia | exact Hrest].
Qed.

Lemma normalized_lines_are_statements_witness :
  preprocess_lines ascii_only [py "  inc 2; // two"; py ""; py "loop:"]
    = Ok [(2, py "inc 2;"); (0, py "loop:")] /\
  (length [(2, py "inc 2;"); (0, py "loop:")] <= 3)%nat.
Proof.
  split; [reflexivity|].
  exact (proj1 (normalized_lines_are_statements ascii_only
                  [py "  inc 2; // two"; py ""; py "loop:"]
                  [(2, py "inc 2;"); (0, py "loop:")] eq_refl)).
Defined.

(** X2. A line that is blank once its comment is removed changes nothing:
    with such a line put between two parts of a program, before a
    program or after it, the compilation gives the same result, output or
    error, line number included. *)
Theorem blank_lines_are_ignored (db : unicode_tables) (a blank b : pystr) :
  ~ In 10 blank -> strip db (remove_comment blank) = [] ->
  compile db (a ++ [10] ++ blank ++ [10] ++ b) = compile db (a ++ [10] ++ b) /\
  compile db (blank ++ [10] ++ b) = compile db b /\
  compile db (a ++ [10] ++ blank) = compile db a.
Proof.
  intros Hnl Hb. pose proof (preprocess_line_blank db blank Hb) as Hp.
  assert (P1 : forall rest,
             preprocess_lines db (blank :: rest) = preprocess_lines db rest).
  { intros rest. rewrite preprocess_lines_cons, Hp. cbn [bind].
    destruct (preprocess_lines db rest); reflexivity. }
  unfold compile. cbn [app]. repeat split.
  - rewrite !split_newline_app, (split_newline_single blank Hnl).
    rewrite (preprocess_lines_app db (split_newline a) ([blank] ++ split_newline b)).
    rewrite (preprocess_lines_app db (split_newline a) (split_newline b)).
    cbn [app]. rewrite P1. reflexivity.
  - rewrite split_newline_app, (split_newline_single blank Hnl).
    cbn [app]. rewrite P1. reflexivity.
  - rewrite split_newline_app, (split_newline_single blank Hnl).
    rewrite preprocess_lines_app, P1.
    destruct (preprocess_lines db (split_newline a)) as [r|e]; cbn [bind];
      [|reflexivity].
    change (preprocess_lines db []) with (@Ok (list (N * pystr)) []).
    cbn [bind]. rewrite app_nil_r. reflexivity.
Qed.

Lemma blank_lines_are_ignored_witness :
  compile ascii_only
    (py "inc;" ++ [10] ++ py "   // nothing here" ++ [10] ++ py "ent 300;")
  = compile ascii_only (py "inc;" ++ [10] ++ py "ent 300;").
Proof.
  refine (proj1 (blank_lines_are_ignored ascii_only (py "inc;")
                   (py "   // nothing here") (py "ent 300;") _ eq_refl)).
  vm_compute. intuition discriminate.
Defined.

(** X4. A carriage return at the end of a line changes nothing of what
    the normalizer makes of the line: a source with CR LF line ends is
    normalized as the same source with LF line ends. *)
Theorem carriage_return_is_ignored (db : unicode_tables) (line : pystr) :
  preprocess_line db (line ++ [13]) = preprocess_line db line.
Proof.
  unfold preprocess_line.
  destruct (remove_comment_cr line) as [-> | ->]; [|reflexivity].
  rewrite strip_cr, measure_indent_cr. reflexivity.
Qed.

(** X5. The indentation of a line is the sum over its leading spaces and
    tabs, a space counting 1 and a tab 4 in whatever order they come; the
    count stops at the first character that is neither. *)
Theorem indentation_is_summed (w rest : pystr) (acc : N) :
  Forall space_or_tab w ->
  (forall c, hd_error rest = Some c -> ~ space_or_tab c) ->
  measure_indent (w ++ rest) acc = acc + indent_width w.
Proof.
  intros Hw Hr. revert acc. induction Hw as [|c w Hc Hw IH]; intros acc.
  - cbn [app indent_width fold_right]. rewrite N.add_0_r.
    destruct rest as [|c rest]; [reflexivity|]. cbn [measure_indent].
    specialize (Hr c eq_refl). unfold space_or_tab in Hr.
    destruct (c =? 32) eqn:E1; [apply N.eqb_eq in E1; tauto|].
    destruct (c =? 9) eqn:E2; [apply N.eqb_eq in E2; tauto|]. reflexivity.
  - cbn [app measure_indent indent_width fold_right]. fold (indent_width w).
    destruct Hc as [-> | ->]; cbn [N.eqb Pos.eqb]; rewrite IH; lia.
Qed.

Lemma indentation_is_summed_witness :
  measure_indent (py " " ++ [9] ++ py "  " ++ py "inc;") 0 = 7.
Proof.
  refine (indentation_is_summed ([32; 9; 32; 32]) (py "inc;") 0 _ _).
  - repeat (apply Forall_cons; [unfold space_or_tab; auto|]). apply Forall_nil.
  - intros c H. injection H as <-. unfold space_or_tab.
    intros [E|E]; discriminate E.
Defined.

(** X6. Removing the comment keeps a prefix of the line, in which no
    comment marker is left; a line without a marker is kept whole. *)
Theorem comment_removal_keeps_a_clean_prefix (line : pystr) :
  (exists rest, line = remove_comment line ++ rest) /\
  find (remove_comment line) (py "//") = None /\
  (find line (py "//") = None -> remove_comment line = line).
Proof.
  unfold remove_comment. destruct (find line (py "//")) as [i|] eqn:E.
  - split; [|split; [|discriminate]].
    + exists (skipn i line). symmetry. apply firstn_skipn.
    + apply find_comment_firstn. exact E.
  - split; [exists []; symmetry; apply app_nil_r|]. split; [exact E | reflexivity].
Qed.

Lemma comment_removal_keeps_a_clean_prefix_witness :
  remove_comment (py "inc 2;") = py "inc 2;".
Proof.
  exact (proj2 (proj2 (comment_removal_keeps_a_clean_prefix (py "inc 2;"))) eq_refl).
Defined.

(** X7. A comment that follows a text with no marker of its own, and
    that does not end with a slash, is dropped whole: the line is
    normalized as the text alone. *)
Theorem trailing_comment_is_dropped (db : unicode_tables) (a b : pystr) :
  find a (py "//") = None -> endswith a (py "/") = false ->
  remove_comment (a ++ py "//" ++ b) = a /\
  preprocess_line db (a ++ py "//" ++ b) = preprocess_line db a.
Proof.
  intros F E.
  assert (R : remove_comment (a ++ py "//" ++ b) = a).
  { unfold remove_comment. rewrite (find_none_app_comment a b F E).
    rewrite firstn_app, firstn_all, Nat.sub_diag. cbn [firstn].
    apply app_nil_r. }
  split; [exact R|]. unfold preprocess_line. rewrite R.
  unfold remove_comment. rewrite F. reflexivity.
Qed.

Lemma trailing_comment_is_dropped_witness :
  preprocess_line ascii_only (py "  inc 2; " ++ py "//" ++ py " twice // really")
  = Ok (Some (2, py "inc 2;")).
Proof.
  exact (proj2 (trailing_comment_is_dropped ascii_only (py "  inc 2; ")
                  (py " twice // really") eq_refl eq_refl)).
Defined.

(* ------------------------------------------------------------------ *)
(** *** Lines and loops *)

Lemma close_loops_zero (stack : list N) :
  forall out, close_loops 0 out stack = flush_loops out stack.
Proof.
  induction stack as [|top rest IH]; intros out; [reflexivity|].
  cbn [close_loops flush_loops].
  replace (0 <=? top) with true by (symmetry; apply N.leb_le; lia). apply IH.
Qed.

Lemma close_ended_loops_zero (st : state) :
  close_ended_loops 0 st
  = rebase (output (close_remaining_loops st)) (current_indent st) init.
Proof.
  unfold close_ended_loops, close_remaining_loops, rebase.
  rewrite close_loops_zero, flush_loops_spec. cbn [output loop_stack init].
  rewrite app_nil_r. reflexivity.
Qed.

(** On a stack in order, the frames at or beyond an indent are the ones
    on top: the closing loop pops exactly those. *)
Lemma close_loops_filter (indent : N) (stack : list N) :
  descending stack ->
  forall out,
    close_loops indent out stack
    = (out ++ repeat (py "]") (length (filter (fun t => indent <=? t) stack)),
       filter (fun t => t <? indent) stack).
Proof.
  induction 1 as [|top rest Hr IH Ht]; intros out.
  - cbn. rewrite app_nil_r. reflexivity.
  - cbn [close_loops filter]. destruct (indent <=? top) eqn:E.
    + replace (top <? indent) with false
        by (symmetry; apply N.ltb_ge, N.leb_le; exact E).
      rewrite IH. cbn [length repeat]. rewrite <- app_assoc. reflexivity.
    + apply N.leb_gt in E.
      replace (top <? indent) with true by (symmetry; apply N.ltb_lt; exact E).
      assert (A : filter (fun t => indent <=? t) rest = []
                  /\ filter (fun t => t <? indent) rest = rest).
      { clear IH Hr. induction Ht as [|x rest Hx _ IHr]; [split; reflexivity|].
        destruct IHr as [I1 I2]. cbn [filter].
        replace (indent <=? x) with false by (symmetry; apply N.leb_gt; lia).
        replace (x <? indent) with true by (symmetry; apply N.ltb_lt; lia).
        rewrite I2. split; [exact I1 | reflexivity]. }
      destruct A as [-> ->]. cbn. rewrite app_nil_r. reflexivity.
Qed.

Section MoreLines.
Variable db : unicode_tables.

Lemma preprocess_lines_nonempty (lines : list pystr) :
  forall processed,
    preprocess_lines db lines = Ok processed ->
    Forall (fun q => snd q <> []) processed.
Proof.
  induction lines as [|line rest IH]; intros processed.
  - intros H; injection H as <-. constructor.
  - rewrite preprocess_lines_cons.
    destruct (preprocess_line db line) as [[[i c]|]|e] eqn:E; cbn [bind];
      [| |discriminate];
      (destruct (preprocess_lines db rest) as [rs|e'];
       cbn [bind]; [|discriminate]);
      intros H; injection H as <-; [|apply IH; reflexivity].
    constructor; [|apply IH; reflexivity].
    apply preprocess_line_some in E. apply E.
Qed.

(** A first line at indent 0, run after other lines, does what it does
    at the start of a program, after the loops left open were closed. *)
Lemma process_line_zero (content : pystr) (st : state) :
  content <> [] ->
  process_line db 0 content st
  = lift (output (close_remaining_loops st)) (current_indent st)
      (process_line db 0 content init).
Proof.
  intros Hne. rewrite <- process_line_rebase. unfold process_line.
  destruct content as [|c content]; [congruence|]. cbn [is_empty].
  rewrite close_ended_loops_zero. reflexivity.
Qed.

Lemma process_line_grows (indent : N) (content : pystr) (st st' : state) :
  process_line db indent content st = Ok st' ->
  exists ps, output st' = output st ++ ps.
Proof.
  unfold process_line. destruct (is_empty content).
  { intros H; injection H as <-. exists []. symmetry; apply app_nil_r. }
  intros H. apply dispatch_extends in H.
  destruct (close_loops_spec indent (loop_stack st) (output st)) as (j & Hc & _).
  assert (Ho : output (close_ended_loops indent st)
               = output st ++ repeat (py "]") j).
  { unfold close_ended_loops. rewrite Hc. reflexivity. }
  destruct H as [-> | (_ & ps & -> & _)].
  - exists (repeat (py "]") j ++ [py "["]). unfold handle_loop, append.
    cbn [output]. rewrite Ho, <- app_assoc. reflexivity.
  - exists (repeat (py "]") j ++ ps). rewrite Ho, <- app_assoc. reflexivity.
Qed.

Lemma process_lines_grow (lines : list (N * pystr)) :
  forall k st st',
    process_lines db k lines st = Ok st' ->
    exists ps, output st' = output st ++ ps.
Proof.
  induction lines as [|[indent content] rest IH]; intros k st st' H.
  - injection H as <-. exists []. symmetry; apply app_nil_r.
  - cbn [process_lines] in H.
    destruct (process_line db indent content st) as [st1|e] eqn:E; [|discriminate].
    apply process_line_grows in E. destruct E as [p1 E1].
    apply IH in H. destruct H as [p2 E2].
    exists (p1 ++ p2). rewrite E2, E1, app_assoc. reflexivity.
Qed.
End MoreLines.

(** X3. Programs compose: when [a] and [b] both compile and the first
    statement of [b], if it has any, is not indented, the program made of
    [a], a line break and [b] compiles to the output of [a] followed by
    the output of [b]; the loops [a] leaves open are closed where [b]
    starts. *)
Theorem programs_compose
    (db : unicode_tables) (a b oa ob : pystr) (lb : list (N * pystr)) :
  compile db a = Ok oa -> compile db b = Ok ob ->
  preprocess_lines db (split_newline b) = Ok lb ->
  (forall i c, hd_error lb = Some (i, c) -> i = 0) ->
  compile db (a ++ [10] ++ b) = Ok (oa ++ ob).
Proof.
  intros Ha Hb Pb H0.
  destruct (compile_ok db a oa Ha) as (la & sa & Pa & La & ->).
  destruct (compile_ok db b ob Hb) as (lb' & sb & Pb' & Lb & ->).
  rewrite Pb in Pb'. injection Pb' as <-.
  pose proof (preprocess_lines_nonempty db _ _ Pb) as Hne.
  unfold compile. cbn [app].
  rewrite split_newline_app, preprocess_lines_app, Pa, Pb. cbn [bind].
  rewrite process_lines_app, La. cbn [bind].
  destruct lb as [|[i c] rest].
  - injection Lb as <-. cbn [process_lines bind].
    change (concat (output (close_remaining_loops init))) with (@nil N).
    rewrite app_nil_r. reflexivity.
  - rewrite (H0 i c eq_refl) in *. inversion Hne as [|? ? Hc _]; subst.
    cbn [snd] in Hc. cbn [process_lines] in Lb |- *.
    rewrite (process_line_zero db c sa Hc).
    destruct (process_line db 0 c init) as [s1|e]; [|discriminate].
    cbn [lift]. rewrite process_lines_rebase.
    rewrite (process_lines_renumber db rest _ _ _ _ Lb). cbn [lift bind].
    rewrite flush_loops_rebase. unfold rebase. cbn [output].
    rewrite concat_app. reflexivity.
Qed.

Lemma programs_compose_witness :
  compile ascii_only
    ((py "loop:" ++ [10] ++ py "  inc;") ++ [10] ++ (py "dec 2;" ++ [10] ++ py "loop:"))
  = Ok (py "[+]" ++ py "--[]").
Proof.
  refine (programs_compose ascii_only (py "loop:" ++ [10] ++ py "  inc;")
            (py "dec 2;" ++ [10] ++ py "loop:") (py "[+]") (py "--[]")
            [(0, py "dec 2;"); (0, py "loop:")] eq_refl eq_refl eq_refl _).
  intros i c H. injection H as <- _. reflexivity.
Defined.

(** X8. After any number of lines, a next line closes exactly the open
    loops that were opened at its indent or deeper, with one loop-close
    each, and keeps open exactly those opened at a smaller indent; a line
    that is not indented closes them all. *)
Theorem line_closes_the_loops_it_leaves
    (db : unicode_tables) (lines : list (N * pystr)) (st : state) (indent : N) :
  process_lines db 1 lines init = Ok st ->
  loop_stack (close_ended_loops indent st)
    = filter (fun t => t <? indent) (loop_stack st) /\
  output (close_ended_loops indent st)
    = output st
      ++ repeat (py "]") (length (filter (fun t => indent <=? t) (loop_stack st))) /\
  loop_stack (close_ended_loops 0 st) = [] /\
  output (close_ended_loops 0 st)
    = output st ++ repeat (py "]") (length (loop_stack st)).
Proof.
  intros H.
  assert (D : descending (loop_stack st)).
  { eapply process_lines_stack; [exact H | constructor]. }
  unfold close_ended_loops.
  rewrite (close_loops_filter indent _ D), close_loops_zero, flush_loops_spec.
  cbn [output loop_stack]. repeat split.
Qed.

Lemma line_closes_the_loops_it_leaves_witness :
  loop_stack
    (close_ended_loops 2
       {| output := [py "["; py "["; py "["]; current_indent := 0;
          loop_stack := [4; 2; 0] |}) = [0].
Proof.
  exact (proj1 (line_closes_the_loops_it_leaves ascii_only
                  [(0, py "loop:"); (2, py "loop:"); (4, py "loop:")]
                  {| output := [py "["; py "["; py "["]; current_indent := 0;
                     loop_stack := [4; 2; 0] |} 2 eq_refl)).
Defined.

(** X9. Emission is append-only: when a run of lines succeeds, so does
    every run of its first lines, and what the whole run has emitted is
    what those first lines had emitted, followed by more. *)
Theorem emission_is_append_only
    (db : unicode_tables) (l1 l2 : list (N * pystr)) (st' : state) :
  process_lines db 1 (l1 ++ l2) init = Ok st' ->
  exists st1 ps,
    process_lines db 1 l1 init = Ok st1 /\
    output st' = output st1 ++ ps.
Proof.
  rewrite process_lines_app.
  destruct (process_lines db 1 l1 init) as [st1|e]; cbn [bind]; [|discriminate].
  intros H. apply process_lines_grow in H. destruct H as [ps E].
  exists st1, ps. auto.
Qed.

Lemma emission_is_append_only_witness :
  exists st1 ps,
    process_lines ascii_only 1 [(0, py "loop:")] init = Ok st1 /\
    [py "["; py "+"] = output st1 ++ ps.
Proof.
  exact (emission_is_append_only ascii_only [(0, py "loop:")] [(2, py "inc;")]
           {| output := [py "["; py "+"]; current_indent := 0; loop_stack := [0] |}
           eq_refl).
Defined.

(* ------------------------------------------------------------------ *)
(** *** Statements *)

Section MoreStatements.
Variable db : unicode_tables.

Lemma isdigit_head (c : char) (s : pystr) :
  c < 128 -> ~ ascii_digit c -> isdigit db (c :: s) = false.
Proof.
  intros Hc Hd. unfold isdigit. cbn [is_empty negb forallb andb].
  unfold char_isdigit at 1.
  replace (c <? 128) with true by (symmetry; apply N.ltb_lt; exact Hc).
  unfold ascii_digit in Hd.
  destruct (48 <=? c) eqn:E1; [|reflexivity].
  destruct (c <=? 57) eqn:E2; [|reflexivity].
  apply N.leb_le in E1, E2. lia.
Qed.

Lemma handle_ent_char (c : char) (st : state) :
  handle_ent db (py "'" ++ [c] ++ py "'") st
  = Ok (append (repeat 43 (N.to_nat c)) (append (py "[-]") st)).
Proof.
  unfold handle_ent. change (py "'" ++ [c] ++ py "'") with [39; c; 39].
  assert (E : strip db [39; c; 39] = [39; c; 39]).
  { unfold strip. rewrite (lstrip_first db) by reflexivity.
    change [39; c; 39] with ([39; c] ++ [39]). apply rstrip_last. reflexivity. }
  rewrite E. clear E.
  change (str_eqb [39; c; 39] (py "input")) with false.
  change (startswith [39; c; 39] (py "'")) with true.
  change (endswith [39; c; 39] (py "'")) with true.
  cbn [andb length Nat.eqb nth]. change (py "+") with [43].
  rewrite str_mul_char. reflexivity.
Qed.

Lemma dispatch_loop_prefix (indent : N) (rest : pystr) (st : state) :
  dispatch db indent (py "loop:" ++ rest) st = Ok (handle_loop indent st).
Proof. reflexivity. Qed.
End MoreStatements.

(** X10. The statements without operand emit one fixed piece each, after
    the ended loops are closed: [cellout;] an output token, [<;] and [>;]
    one shift, [inc;] one increment, [dec;] one decrement, [clr;] the
    clear idiom, and [ent input;] the clear idiom and an input token. *)
Theorem plain_statements_emit_one_piece
    (db : unicode_tables) (indent : N) (st : state) :
  process_line db indent (py "cellout;") st
    = Ok (append (py ".") (close_ended_loops indent st)) /\
  process_line db indent (py "<;") st
    = Ok (append (py "<") (close_ended_loops indent st)) /\
  process_line db indent (py ">;") st
    = Ok (append (py ">") (close_ended_loops indent st)) /\
  process_line db indent (py "inc;") st
    = Ok (append (py "+") (close_ended_loops indent st)) /\
  process_line db indent (py "dec;") st
    = Ok (append (py "-") (close_ended_loops indent st)) /\
  process_line db indent (py "clr;") st
    = Ok (append (py "[-]") (close_ended_loops indent st)) /\
  process_line db indent (py "ent input;") st
    = Ok (append (py ",") (append (py "[-]") (close_ended_loops indent st))).
Proof. repeat split. Qed.

(** X11. A character literal emits the clear idiom and as many increments
    as the ordinal of its character, whatever the character: a quote, a
    space or a character beyond U+00FF as well. *)
Theorem character_literal_tokens
    (db : unicode_tables) (indent : N) (c : char) (st : state) :
  process_line db indent (py "ent '" ++ [c] ++ py "';") st
  = Ok (append (repeat 43 (N.to_nat c))
          (append (py "[-]") (close_ended_loops indent st))).
Proof.
  change (py "ent '" ++ [c] ++ py "';")
    with ((py "ent " ++ py "'" ++ [c] ++ py "'") ++ py ";").
  rewrite process_line_statement, dispatch_ent. apply handle_ent_char.
Qed.

(** X12. A line is a loop header as soon as it starts with [loop:]:
    whatever follows on the line is ignored, and the line opens a loop
    at its indent after the ended loops are closed. *)
Theorem text_after_loop_header_is_ignored
    (db : unicode_tables) (indent : N) (rest : pystr) (st : state) :
  process_line db indent (py "loop:" ++ rest) st
  = Ok (handle_loop indent (close_ended_loops indent st)).
Proof.
  unfold process_line. change (is_empty (py "loop:" ++ rest)) with false.
  cbv iota.
  destruct (endswith (py "loop:" ++ rest) (py ";")) eqn:E;
    [|apply dispatch_loop_prefix].
  destruct rest as [|x rest]; [discriminate E|].
  destruct (exists_last (l := x :: rest)) as (r & y & Hr); [discriminate|].
  rewrite Hr, app_assoc, removelast_last. apply dispatch_loop_prefix.
Qed.

(** X13. An operand of [ent] that starts with an ASCII character other
    than a digit, a quote or the letter i is refused as an invalid value:
    a negative number or a name is no operand. *)
Theorem other_operands_are_refused
    (db : unicode_tables) (indent : N) (c : char) (s : pystr) (st : state) :
  c < 128 -> ~ ascii_digit c -> c <> 105 -> c <> 39 -> c <> 34 ->
  strip db (c :: s) = c :: s ->
  process_line db indent (py "ent " ++ (c :: s) ++ py ";") st
  = Raise (InvalidValueForEnt (c :: s)).
Proof.
  intros Hc Hd Hi Hq Hdq Hs.
  rewrite app_assoc, process_line_statement, dispatch_ent. unfold handle_ent.
  rewrite Hs, (isdigit_head db c s Hc Hd).
  change (py "input") with (105 :: py "nput"). change (py "'") with [39].
  unfold dquote. cbn [str_eqb startswith].
  apply N.eqb_neq in Hi, Hq, Hdq. rewrite Hi, Hq, Hdq. reflexivity.
Qed.

Lemma other_operands_are_refused_witness :
  process_line ascii_only 0 (py "ent " ++ py "-5" ++ py ";") init
  = Raise (InvalidValueForEnt (py "-5")).
Proof.
  refine (other_operands_are_refused ascii_only 0 45 (py "5") init
            eq_refl _ _ _ _ eq_refl); try discriminate.
  unfold ascii_digit. intros [H _]. apply H. reflexivity.
Defined.

(** X14. A statement whose first character is none of l, e, c, i, d, <
    and > is refused as unknown, and so is the empty statement [;]:
    keywords are matched as written, in lower case. *)
Theorem other_statements_are_unknown
    (db : unicode_tables) (indent : N) (c : char) (s : pystr) (st : state) :
  c <> 108 -> c <> 101 -> c <> 99 -> c <> 105 -> c <> 100 ->
  c <> 60 -> c <> 62 ->
  process_line db indent ((c :: s) ++ py ";") st
    = Raise (UnknownStatement (c :: s)) /\
  process_line db indent (py ";") st = Raise (UnknownStatement []).
Proof.
  intros Hl He Hc Hi Hd Hlt Hgt. split; [|reflexivity].
  rewrite process_line_statement. unfold dispatch.
  apply N.eqb_neq in Hl, He, Hc, Hi, Hd, Hlt, Hgt.
  cbn [py startswith str_eqb]. cbn -[N.eqb andb orb].
  rewrite Hl, He, Hc, Hi, Hd, Hlt, Hgt. reflexivity.
Qed.

Lemma other_statements_are_unknown_witness :
  process_line ascii_only 0 (py "Inc 2;") init
  = Raise (UnknownStatement (py "Inc 2")).
Proof.
  refine (proj1 (other_statements_are_unknown ascii_only 0 73 (py "nc 2") init
                   _ _ _ _ _ _ _)); discriminate.
Defined.

(* ------------------------------------------------------------------ *)
(** *** The output file *)

Lemma replace_without_occurrence (s : pystr) :
  find s (py ".bb") = None -> replace s (py ".bb") (py ".bf") = s.
Proof.
  unfold replace. induction s as [|c s IH]; [reflexivity|].
  cbn [find replace_from].
  destruct (startswith (c :: s) (py ".bb")); [discriminate|].
  destruct (find s (py ".bb")); [discriminate|].
  intros _. rewrite IH; reflexivity.
Qed.

Lemma replace_extension (stem : pystr) :
  find stem (py ".bb") = None ->
  replace (stem ++ py ".bb") (py ".bb") (py ".bf") = stem ++ py ".bf".
Proof.
  unfold replace. induction stem as [|c stem IH]; [reflexivity|].
  cbn [find]. destruct (startswith (c :: stem) (py ".bb")) eqn:S1; [discriminate|].
  destruct (find stem (py ".bb")) eqn:F; [discriminate|]. intros _.
  cbn [app replace_from].
  assert (S2 : startswith (c :: stem ++ py ".bb") (py ".bb") = false).
  { destruct stem as [|x [|y stem]]; cbn in S1 |- *.
    - apply andb_false_r.
    - destruct (c =? 46); [|reflexivity]. destruct (x =? 98); reflexivity.
    - exact S1. }
  rewrite S2, IH; reflexivity.
Qed.

Lemma str_eqb_neq (a b : pystr) : a <> b -> str_eqb a b = false.
Proof.
  intros H. destruct (str_eqb a b) eqn:E; [|reflexivity].
  apply str_eqb_eq in E. contradiction.
Qed.

(** X15. The file [main] writes is never the file it read: the output
    name differs from the source name, whatever that is. *)
Theorem output_file_is_not_the_source (source_file : pystr) :
  str_eqb (output_file_name source_file) source_file = false.
Proof.
  apply str_eqb_neq. unfold output_file_name.
  destruct (str_eqb (replace source_file (py ".bb") (py ".bf")) source_file) eqn:E.
  - apply str_eqb_eq in E. rewrite E. intros H.
    apply (f_equal (@length N)) in H. rewrite length_app in H. simpl in H. lia.
  - intros H. rewrite H, (proj2 (str_eqb_eq _ _) eq_refl) in E. discriminate.
Qed.

(** X16. For a name in which [.bb] does not occur, the output name is the
    name with [.bf] added; for such a name followed by [.bb], it is the
    name followed by [.bf]. *)
Theorem output_file_extension (stem : pystr) :
  find stem (py ".bb") = None ->
  output_file_name stem = stem ++ py ".bf" /\
  output_file_name (stem ++ py ".bb") = stem ++ py ".bf".
Proof.
  intros F. unfold output_file_name. split.
  - rewrite (replace_without_occurrence stem F).
    rewrite (proj2 (str_eqb_eq _ _) eq_refl). reflexivity.
  - rewrite (replace_extension stem F). rewrite str_eqb_neq; [reflexivity|].
    intros H. apply app_inv_head in H. discriminate.
Qed.

Lemma output_file_extension_witness :
  output_file_name (py "demo/hello") = py "demo/hello.bf" /\
  output_file_name (py "demo/hello.bb") = py "demo/hello.bf".
Proof.
  exact (output_file_extension (py "demo/hello") eq_refl).
Defined.

(* ------------------------------------------------------------------ *)
(** *** Loops around programs *)

Lemma append_under (x : pystr) (base : list N) (st : state) :
  append x (under base st) = under base (append x st).
Proof. reflexivity. Qed.

Lemma ent_string_under (cs : pystr) (base : list N) :
  forall i st, ent_string i cs (under base st) = under base (ent_string i cs st).
Proof.
  induction cs as [|c cs IH]; intros i st; [reflexivity|].
  cbn [ent_string]. destruct (Nat.ltb 0 i); rewrite !append_under; apply IH.
Qed.

Lemma close_loops_under (indent : N) (base stack : list N) :
  Forall (fun t => t < indent) base ->
  forall out,
    close_loops indent out (stack ++ base)
    = (fst (close_loops indent out stack),
       snd (close_loops indent out stack) ++ base).
Proof.
  intros Hb. induction stack as [|top rest IH]; intros out.
  - cbn [app close_loops fst snd]. apply close_loops_none.
    intros t Ht. destruct base as [|b base]; [discriminate|].
    injection Ht as <-. inversion Hb; assumption.
  - cbn [app close_loops]. destruct (indent <=? top); [apply IH | reflexivity].
Qed.

Lemma close_ended_loops_under (indent : N) (base : list N) (st : state) :
  Forall (fun t => t < indent) base ->
  close_ended_loops indent (under base st)
  = under base (close_ended_loops indent st).
Proof.
  intros Hb. unfold close_ended_loops, under.
  cbn [output loop_stack current_indent].
  rewrite (close_loops_under indent base _ Hb).
  destruct (close_loops indent (output st) (loop_stack st)); reflexivity.
Qed.

Ltac under_cases :=
  repeat match goal with
         | |- context [if ?b then _ else _] => destruct b
         | |- context [match ?o with Some _ => _ | None => _ end] => destruct o
         | |- context [str_repeat ?s ?n] => destruct (str_repeat s n); cbn [bind]
         end;
  reflexivity.

Ltac error_cases :=
  repeat (cbn [bind];
          match goal with
          | |- context [if ?b then _ else _] => destruct b
          | |- context [match ?o with Some _ => _ | None => _ end] => destruct o
          end);
  cbn [bind];
  let H := fresh "H" in intros H; inversion H; exact I.

Section Under.
Variable db : unicode_tables.
Variable base : list N.

Lemma dispatch_under (indent : N) (content : pystr) (st : state) :
  dispatch db indent content (under base st)
  = lift_under base (dispatch db indent content st).
Proof.
  unfold dispatch.
  destruct (startswith content (py "loop:")); [reflexivity|].
  destruct (startswith content (py "ent ")).
  { unfold handle_ent.
    destruct (str_eqb (strip db (skipn 4 content)) (py "input")); [reflexivity|].
    destruct (_ && _ && _); [reflexivity|].
    destruct (_ && _); [cbn [lift_under]; rewrite ent_string_under; reflexivity|].
    under_cases. }
  destruct (str_eqb content (py "cellout")); [reflexivity|].
  destruct (_ || _); [reflexivity|].
  destruct (_ || _).
  { unfold handle_multi_shift.
    destruct (startswith content (py "<<"));
      [|destruct (startswith content (py ">>"))]; cbn [bind]; under_cases. }
  destruct (startswith content (py "inc")); [unfold handle_inc; under_cases|].
  destruct (startswith content (py "dec")); [unfold handle_dec; under_cases|].
  destruct (str_eqb content (py "clr")); reflexivity.
Qed.

Lemma process_line_under (indent : N) (content : pystr) (st : state) :
  Forall (fun t => t < indent) base ->
  content <> [] ->
  process_line db indent content (under base st)
  = lift_under base (process_line db indent content st).
Proof.
  intros Hb Hne. unfold process_line.
  destruct content as [|c content]; [congruence|]. cbn [is_empty].
  rewrite (close_ended_loops_under indent base st Hb). apply dispatch_under.
Qed.

Lemma process_lines_under (lines : list (N * pystr)) :
  Forall (fun q => Forall (fun t => t < fst q) base /\ snd q <> []) lines ->
  forall k st,
    process_lines db k lines (under base st)
    = lift_under base (process_lines db k lines st).
Proof.
  induction 1 as [|[indent content] rest [Hb Hne] _ IH]; intros k st;
    [reflexivity|].
  cbn [process_lines]. cbn [fst snd] in Hb, Hne.
  rewrite (process_line_under indent content st Hb Hne).
  destruct (process_line db indent content st) as [st1|e]; cbn [lift_under];
    [apply IH | reflexivity].
Qed.

Lemma dispatch_error (indent : N) (content : pystr) (st : state) (e : error) :
  dispatch db indent content st = Raise e -> not_invalid_shift_operator e.
Proof.
  unfold dispatch, handle_ent, handle_multi_shift, handle_inc, handle_dec,
    str_repeat.
  destruct (startswith content (py "loop:")); [discriminate|].
  destruct (startswith content (py "ent ")); [error_cases|].
  destruct (str_eqb content (py "cellout")); [discriminate|].
  destruct (_ || _); [discriminate|].
  destruct (startswith content (py "<<")) eqn:L; [cbn [orb]; error_cases|].
  destruct (startswith content (py ">>")) eqn:R; [cbn [orb]; error_cases|].
  cbn [orb]. error_cases.
Qed.
End Under.

(** X17. A source in which every line is blank once its comment is
    removed, the empty source among them, compiles to the empty output. *)
Theorem blank_source_compiles_to_nothing (db : unicode_tables) (src : pystr) :
  (forall line, In line (split_newline src) ->
                strip db (remove_comment line) = []) ->
  compile db src = Ok [].
Proof.
  intros H. unfold compile.
  assert (P : preprocess_lines db (split_newline src) = Ok []).
  { induction (split_newline src) as [|line rest IH]; [reflexivity|].
    rewrite preprocess_lines_cons.
    rewrite (preprocess_line_blank db line (H line (or_introl eq_refl))).
    cbn [bind]. rewrite IH; [reflexivity|].
    intros l Hl. apply H. right; exact Hl. }
  rewrite P. reflexivity.
Qed.

Lemma blank_source_compiles_to_nothing_witness :
  compile ascii_only ([10] ++ py "   // only a comment" ++ [13; 10] ++ [9]) = Ok [].
Proof.
  apply blank_source_compiles_to_nothing.
  intros line H. vm_compute in H.
  repeat (destruct H as [<- | H]; [reflexivity|]). destruct H.
Defined.

(** X18. The error of the last branch of the multi-shift handler, "Invalid
    shift operator", is never the outcome of a compilation, alone or
    wrapped with a line number: the handler is reached only for a
    statement that starts with one of the two operators. *)
Theorem invalid_shift_operator_is_never_raised
    (db : unicode_tables) (src : pystr) (e : error) :
  compile db src = Raise e -> not_invalid_shift_operator e.
Proof.
  unfold compile.
  destruct (preprocess_lines db (split_newline src)) as [lines|e0] eqn:P;
    cbn [bind].
  - destruct (process_lines db 1 lines init) as [st|e1] eqn:L; cbn [bind];
      [discriminate|].
    intros H; injection H as <-.
    destruct (process_lines_raise db lines 1 init e1 L)
      as (n & indent & content & e' & st' & _ & -> & _ & Hl).
    unfold process_line in Hl. destruct (is_empty content); [discriminate|].
    apply dispatch_error in Hl. destruct e'; try exact I; exact Hl.
  - intros H; injection H as <-.
    destruct (preprocess_from_raise db _ _ _ P) as [content ->]. exact I.
Qed.

Lemma invalid_shift_operator_is_never_raised_witness :
  not_invalid_shift_operator (ErrorOnLine 1 (InvalidNumberInShift (py "<<x"))).
Proof.
  exact (invalid_shift_operator_is_never_raised ascii_only (py "<<x;")
           (ErrorOnLine 1 (InvalidNumberInShift (py "<<x"))) eq_refl).
Defined.

(** X19. A loop header wraps what follows it: when a program compiles and
    all its statements are indented, the program made of an unindented
    [loop:] line followed by it compiles to a loop-open, the output of
    the program, and a loop-close. *)
Theorem loop_header_wraps_its_body
    (db : unicode_tables) (body ob : pystr) (lb : list (N * pystr)) :
  compile db body = Ok ob ->
  preprocess_lines db (split_newline body) = Ok lb ->
  Forall (fun q => 0 < fst q) lb ->
  compile db (py "loop:" ++ [10] ++ body) = Ok (py "[" ++ ob ++ py "]").
Proof.
  intros Hb Pb Hi.
  destruct (compile_ok db body ob Hb) as (lb' & sb & Pb' & Lb & ->).
  rewrite Pb in Pb'. injection Pb' as <-.
  assert (Hu : Forall (fun q => Forall (fun t => t < fst q) [0] /\ snd q <> []) lb).
  { pose proof (preprocess_lines_nonempty db _ _ Pb) as Hne.
    rewrite Forall_forall in *. intros q Hq. split; [|apply Hne; exact Hq].
    constructor; [apply Hi; exact Hq | constructor]. }
  unfold compile. change ([10] ++ body) with (10 :: body).
  rewrite split_newline_app.
  change (split_newline (py "loop:") ++ split_newline body)
    with (py "loop:" :: split_newline body).
  rewrite preprocess_lines_cons.
  change (preprocess_line db (py "loop:")) with (Ok (Some (0, py "loop:"))).
  cbn [bind]. rewrite Pb. cbn [bind process_lines].
  change (process_line db 0 (py "loop:") init)
    with (Ok (rebase [py "["] 0 (under [0] init))).
  cbv iota. rewrite process_lines_rebase, (process_lines_under db [0] lb Hu).
  rewrite (process_lines_renumber db lb _ _ _ _ Lb). cbn [lift_under lift bind].
  rewrite flush_loops_rebase. unfold rebase, close_remaining_loops, under.
  cbn [output loop_stack]. rewrite !flush_loops_spec. cbn [output].
  rewrite length_app, repeat_app, !concat_app. cbn [length repeat concat].
  rewrite !app_nil_r, <- !app_assoc. reflexivity.
Qed.

Lemma loop_header_wraps_its_body_witness :
  compile ascii_only (py "loop:" ++ [10] ++ (py "  dec;" ++ [10] ++ py "  >;"))
  = Ok (py "[" ++ py "->" ++ py "]").
Proof.
  refine (loop_header_wraps_its_body ascii_only (py "  dec;" ++ [10] ++ py "  >;")
            (py "->") [(2, py "dec;"); (2, py ">;")] eq_refl eq_refl _).
  repeat (apply Forall_cons; [reflexivity|]). apply Forall_nil.
Defined.

(* ------------------------------------------------------------------ *)
(** *** Whitespace inside a statement *)

Lemma dropwhile_all (p : N -> bool) (l r : pystr) :
  Forall (fun c => p c = true) l -> dropwhile p (l ++ r) = dropwhile p r.
Proof.
  induction 1 as [|c l Hc _ IH]; [reflexivity|].
  cbn [app dropwhile]. rewrite Hc. exact IH.
Qed.

Section Whitespace.
Variable db : unicode_tables.

Lemma strip_keyword_space (k1 k2 k3 : char) (ws : pystr) :
  char_isspace db k1 = false -> char_isspace db k3 = false ->
  Forall (fun c => char_isspace db c = true) ws ->
  strip db ([k1; k2; k3] ++ ws) = [k1; k2; k3].
Proof.
  intros H1 H3 Hws. unfold strip. cbn [app].
  rewrite (lstrip_first db) by exact H1. unfold rstrip.
  change (k1 :: k2 :: k3 :: ws) with ([k1; k2; k3] ++ ws).
  rewrite rev_app_distr, dropwhile_all by (apply Forall_rev; exact Hws).
  cbn [rev app dropwhile]. rewrite H3. reflexivity.
Qed.
End Whitespace.

(** X20. Whitespace between a keyword and the semicolon is accepted by
    [inc] and [dec], which then count one, and by no other statement
    without operand: [cellout], [clr], [<] and [>] followed by whitespace
    are unknown statements. *)
Theorem space_before_the_semicolon
    (db : unicode_tables) (indent : N) (ws : pystr) (st : state) :
  Forall (fun c => char_isspace db c = true) ws ->
  process_line db indent (py "inc" ++ ws ++ py ";") st
    = Ok (append (py "+") (close_ended_loops indent st)) /\
  process_line db indent (py "dec" ++ ws ++ py ";") st
    = Ok (append (py "-") (close_ended_loops indent st)) /\
  (ws <> [] ->
   process_line db indent (py "cellout" ++ ws ++ py ";") st
     = Raise (UnknownStatement (py "cellout" ++ ws)) /\
   process_line db indent (py "clr" ++ ws ++ py ";") st
     = Raise (UnknownStatement (py "clr" ++ ws)) /\
   process_line db indent (py "<" ++ ws ++ py ";") st
     = Raise (UnknownStatement (py "<" ++ ws)) /\
   process_line db indent (py ">" ++ ws ++ py ";") st
     = Raise (UnknownStatement (py ">" ++ ws))).
Proof.
  intros Hws. rewrite !app_assoc, !process_line_statement.
  split; [|split].
  - change (dispatch db indent (py "inc" ++ ws) (close_ended_loops indent st))
      with (handle_inc db (py "inc" ++ ws) (close_ended_loops indent st)).
    unfold handle_inc. change (py "inc") with [105; 110; 99].
    rewrite (strip_keyword_space db 105 110 99 ws eq_refl eq_refl Hws).
    reflexivity.
  - change (dispatch db indent (py "dec" ++ ws) (close_ended_loops indent st))
      with (handle_dec db (py "dec" ++ ws) (close_ended_loops indent st)).
    unfold handle_dec. change (py "dec") with [100; 101; 99].
    rewrite (strip_keyword_space db 100 101 99 ws eq_refl eq_refl Hws).
    reflexivity.
  - intros Hne. destruct ws as [|w ws]; [congruence|].
    inversion Hws as [|? ? Hw _]; subst.
    assert (L : (w =? 60) = false).
    { apply N.eqb_neq. intros ->. discriminate Hw. }
    assert (R : (w =? 62) = false).
    { apply N.eqb_neq. intros ->. discriminate Hw. }
    repeat split; unfold dispatch; cbn -[N.eqb andb orb];
      rewrite ?L, ?R; reflexivity.
Qed.

Lemma space_before_the_semicolon_witness :
  process_line ascii_only 0 (py "inc" ++ py "  " ++ py ";") init
    = Ok (append (py "+") (close_ended_loops 0 init)).
Proof.
  refine (proj1 (space_before_the_semicolon ascii_only 0 (py "  ") init _)).
  repeat (apply Forall_cons; [reflexivity|]). apply Forall_nil.
Defined.
